(** * pyarallel: the parallel dispatch engine of [pyarallel/core.py]

    A shallow embedding of the rate limiter ([RateLimit], [TokenBucket]),
    of the executor cache ([get_or_create_executor]) and of the decorated
    call ([parallel], its [wrapper]), followed by the properties of the
    design document that are settled on it.

    Conventions of the embedding.
    - Python floats that hold times and rates are rationals ([Q]); a
      division keeps Python's [ZeroDivisionError].
    - [time.time()] reads the field [clock] of the world and
      [time.sleep d] adds [d] to it.
    - A function that can raise returns an [Outcome]; the state it leaves
      behind is returned next to it.
    - An executor is a table of futures; which pending tasks finish
      before a call of [Future.result] returns is decided by the field
      [sched] of the world, so every completion order is a possible world.
      The executor is the capability of the design document: it accepts
      a task and runs it, and its constructor refuses a worker count that
      is not positive.  How a process pool carries a task to a worker
      (pickling) and how many threads a pool has started are not modelled.
    - The wrapped function is a function of its arguments: it returns a
      value or raises, and has no other effect.
    - The field [trace] is a ghost log of the calls of the wrapped
      function, of [Executor.submit] and of [TokenBucket.wait_for_token].
    - Locks are left out: the embedding follows one calling thread. *)

From Stdlib Require Import ZArith QArith Qminmax Lqa Lia String Ascii List.
From Equations Require Import Equations.
From stdpp Require Import gmap strings list.
Import ListNotations.

Local Open Scope Z_scope.
Set Warnings "-register-all".

(** ** Python values, exceptions and outcomes *)

Inductive PyExc : Type :=
| ZeroDivisionError
| ValueError
| RuntimeError
| IndexError
| UnboundLocalError
| UserError (tag : string).

Inductive Outcome (A : Type) : Type :=
| Ok (a : A)
| Raise (e : PyExc).
Arguments Ok {A} a.
Arguments Raise {A} e.

Definition is_ok {A} (o : Outcome A) : bool :=
  match o with Ok _ => true | Raise _ => false end.

Definition map_outcome {A B} (f : A -> B) (o : Outcome A) : Outcome B :=
  match o with Ok a => Ok (f a) | Raise e => Raise e end.

(** The values a decorated function is called with.  [VInstance c] is an
    instance of the user class named [c] (not a subclass of [list] or
    [tuple]); [VClass c] is that class itself. *)
Inductive PyVal : Type :=
| VNone
| VBool (b : bool)
| VInt (z : Z)
| VStr (s : string)
| VBytes (bs : list ascii)
| VList (items : list PyVal)
| VTuple (items : list PyVal)
| VInstance (cls : string)
| VClass (name : string).

(** [v.__class__.__name__] *)
Definition class_name (v : PyVal) : string :=
  match v with
  | VNone => "NoneType"
  | VBool _ => "bool"
  | VInt _ => "int"
  | VStr _ => "str"
  | VBytes _ => "bytes"
  | VList _ => "list"
  | VTuple _ => "tuple"
  | VInstance c => c
  | VClass _ => "type"
  end.

(** [isinstance(v, type) and v.__name__ == n] *)
Definition is_class_named (v : PyVal) (n : string) : bool :=
  match v with
  | VClass c => String.eqb c n
  | _ => false
  end.

(** [isinstance(v, (list, tuple))], with the items when it holds. *)
Definition as_sequence (v : PyVal) : option (list PyVal) :=
  match v with
  | VList items => Some items
  | VTuple items => Some items
  | _ => None
  end.

Definition Kwargs : Type := list (string * PyVal).

(** A Python callable: its [__qualname__] and what a call returns. *)
Record PyFunc : Type := {
  qualname : string;
  pf_call : list PyVal -> Kwargs -> Outcome PyVal
}.

(** ['.' in s] *)
Fixpoint has_dot (s : string) : bool :=
  match s with
  | EmptyString => false
  | String c r => if Ascii.eqb c "."%char then true else has_dot r
  end.

(** [s.split('.')[0]] *)
Fixpoint before_dot (s : string) : string :=
  match s with
  | EmptyString => EmptyString
  | String c r =>
      if Ascii.eqb c "."%char then EmptyString else String c (before_dot r)
  end.

(** ** Rate limiting: [RateLimit] and [TokenBucket] *)

Inductive TimeUnit : Type := Second | Minute | Hour.

Record RateLimit : Type := {
  count : Q;
  interval : TimeUnit
}.

(** The [__init__] that [@dataclass] generates stores the two fields and
    checks nothing. *)
Definition RateLimit_init (c : Q) (i : TimeUnit) : Outcome RateLimit :=
  Ok {| count := c; interval := i |}.

Definition multiplier (i : TimeUnit) : Q :=
  match i with
  | Second => 1
  | Minute => 60
  | Hour => 3600
  end.

Definition per_second (rl : RateLimit) : Q :=
  (count rl / multiplier (interval rl))%Q.

Record TokenBucket : Type := {
  rate : Q;
  capacity : Q;
  tokens : Q;
  last_update : Q;
  next_allowed : Q
}.

(** [capacity or rate_limit.count]: [None] and [0] are falsy. *)
Definition capacity_or (cap : option Z) (c : Q) : Q :=
  match cap with
  | None => c
  | Some z => if Z.eqb z 0 then c else inject_Z z
  end.

(** [TokenBucket.__init__]; [now] is what [time.time()] returns. *)
Definition TokenBucket_init (rl : RateLimit) (cap : option Z) (now : Q)
  : TokenBucket :=
  let c := capacity_or cap (count rl) in
  {| rate := per_second rl;
     capacity := c;
     tokens := c;
     last_update := now;
     next_allowed := now |}.

(** [x < y] on floats *)
Definition Qltb (x y : Q) : bool := negb (Qle_bool y x).

(** [max(a, b)]: the first argument unless the second is larger. *)
Definition pymax (a b : Q) : Q := if Qltb a b then b else a.

(** [1 / r] *)
Definition one_over (r : Q) : Outcome Q :=
  if Qeq_bool r 0 then Raise ZeroDivisionError else Ok (1 / r)%Q.

Definition set_next_allowed (b : TokenBucket) (t : Q) : TokenBucket :=
  {| rate := rate b;
     capacity := capacity b;
     tokens := tokens b;
     last_update := last_update b;
     next_allowed := t |}.

(** The assignment both methods share:
    [self.next_allowed = max(self.next_allowed + 1/self.rate, now + 1/self.rate)] *)
Definition advance (now : Q) (b : TokenBucket) : Outcome TokenBucket :=
  match one_over (rate b) with
  | Raise e => Raise e
  | Ok d1 =>
      match one_over (rate b) with
      | Raise e => Raise e
      | Ok d2 =>
          Ok (set_next_allowed b
                (pymax (next_allowed b + d1)%Q (now + d2)%Q))
      end
  end.

(** [TokenBucket.get_token], reading [now] from the clock. *)
Definition get_token (now : Q) (b : TokenBucket)
  : Outcome (bool * TokenBucket) :=
  if Qltb now (next_allowed b) then Ok (false, b)
  else map_outcome (fun b' => (true, b')) (advance now b).

(** One turn of the loop of [wait_for_token] ends the call when the
    clock has reached [next_allowed]. *)
Definition wait_measure (now : Q) (b : TokenBucket) : nat :=
  if Qltb now (next_allowed b) then 1%nat else 0%nat.

(** [TokenBucket.wait_for_token]: returns the clock at which the permit
    was granted and the bucket. *)
Equations? wait_for_token (now : Q) (b : TokenBucket)
  : Outcome (Q * TokenBucket) by wf (wait_measure now b) lt :=
  wait_for_token now b with Equations.Prop.Logic.inspect (Qltb now (next_allowed b)) := {
    | exist _ false _ => map_outcome (fun b' => (now, b')) (advance now b)
    | exist _ true E =>
        wait_for_token
          (now + pymax (1 # 1000) (next_allowed b - now))%Q b
  }.
Proof.
  unfold wait_measure. rewrite E.
  assert (S : Qltb (now + pymax (1 # 1000) (next_allowed b - now))%Q
                (next_allowed b) = false).
  { unfold pymax, Qltb. apply negb_false_iff, Qle_bool_iff.
    destruct (Qle_bool (next_allowed b - now) (1 # 1000)) eqn:L; simpl.
    - apply Qle_bool_iff in L. lra.
    - lra. }
  rewrite S. lia.
Qed.

(** ** Executors, futures and the world *)

Inductive ExecutorType : Type := Thread | Process.

#[global] Instance ExecutorType_eq_dec : EqDecision ExecutorType.
Proof. solve_decision. Defined.

#[global] Instance ExecutorType_countable : Countable ExecutorType.
Proof.
  refine (inj_countable'
            (fun k => match k with Thread => false | Process => true end)
            (fun b : bool => if b then Process else Thread) _).
  intros []; reflexivity.
Defined.

(** What is handed to [Executor.submit]: the warm-up [lambda: None] or
    a [partial] of the function with its arguments. *)
Inductive Task : Type :=
| NoOp
| Partial (f : PyFunc) (args : list PyVal) (kwargs : Kwargs).

Definition run_task (t : Task) : Outcome PyVal :=
  match t with
  | NoOp => Ok VNone
  | Partial f args kwargs => pf_call f args kwargs
  end.

Record Future : Type := {
  fut_task : Task;
  fut_result : option (Outcome PyVal)
}.

Record Executor : Type := {
  ex_kind : ExecutorType;
  ex_max_workers : Z;
  ex_shutdown : bool;
  ex_futures : list Future
}.

Inductive TraceEv : Type :=
| EvCall (f : PyFunc) (args : list PyVal) (kwargs : Kwargs)
| EvSubmit (eid : nat) (t : Task)
| EvWait.

(** [cache] is [_EXECUTOR_CACHE]: it maps a key to the identity of an
    executor; [execs] holds the executors that are alive.  An entry of the
    weak dictionary whose executor is gone is not seen by [get]. *)
Record World : Type := {
  clock : Q;
  sched : list (list nat);
  cache : gmap (ExecutorType * Z) nat;
  execs : gmap nat Executor;
  next_id : nat;
  trace : list TraceEv
}.

Definition empty_world : World :=
  {| clock := 0; sched := []; cache := ∅; execs := ∅;
     next_id := 0%nat; trace := [] |}.

Definition set_clock (t : Q) (w : World) : World :=
  {| clock := t; sched := sched w; cache := cache w; execs := execs w;
     next_id := next_id w; trace := trace w |}.

Definition set_sched (s : list (list nat)) (w : World) : World :=
  {| clock := clock w; sched := s; cache := cache w; execs := execs w;
     next_id := next_id w; trace := trace w |}.

Definition set_cache (c : gmap (ExecutorType * Z) nat) (w : World) : World :=
  {| clock := clock w; sched := sched w; cache := c; execs := execs w;
     next_id := next_id w; trace := trace w |}.

Definition set_execs (e : gmap nat Executor) (w : World) : World :=
  {| clock := clock w; sched := sched w; cache := cache w; execs := e;
     next_id := next_id w; trace := trace w |}.

Definition set_next_id (n : nat) (w : World) : World :=
  {| clock := clock w; sched := sched w; cache := cache w; execs := execs w;
     next_id := n; trace := trace w |}.

Definition log (evs : list TraceEv) (w : World) : World :=
  {| clock := clock w; sched := sched w; cache := cache w; execs := execs w;
     next_id := next_id w; trace := trace w ++ evs |}.

(** Code that reads and writes the world and may raise. *)
Definition M (A : Type) : Type := World -> Outcome A * World.

Definition ret {A} (a : A) : M A := fun w => (Ok a, w).

Definition raise {A} (e : PyExc) : M A := fun w => (Raise e, w).

Definition bind {A B} (c : M A) (k : A -> M B) : M B :=
  fun w =>
    match c w with
    | (Ok a, w') => k a w'
    | (Raise e, w') => (Raise e, w')
    end.

Notation "'do' x <- c ; k" := (bind c (fun x => k))
  (at level 10, x name, c at level 100, k at level 200).

(** [try: body  except Exception as e: raise h(e)] *)
Definition try_except {A} (body : M A) (h : PyExc -> PyExc) : M A :=
  fun w =>
    match body w with
    | (Ok a, w') => (Ok a, w')
    | (Raise e, w') => (Raise (h e), w')
    end.

(** A call of [func] with [args] and [kwargs] on the calling thread *)
Definition call (f : PyFunc) (args : list PyVal) (kwargs : Kwargs) : M PyVal :=
  fun w => (pf_call f args kwargs, log [EvCall f args kwargs] w).

Definition set_futures (fs : list Future) (ex : Executor) : Executor :=
  {| ex_kind := ex_kind ex; ex_max_workers := ex_max_workers ex;
     ex_shutdown := ex_shutdown ex; ex_futures := fs |}.


(** [get_executor_class(executor_type)(max_workers=n)]: both
    [ThreadPoolExecutor] and [ProcessPoolExecutor] raise [ValueError]
    unless [n > 0]. *)
Definition new_executor (kind : ExecutorType) (max_workers : Z) : M nat :=
  fun w =>
    if max_workers <=? 0 then (Raise ValueError, w)
    else
      let eid := next_id w in
      let ex := {| ex_kind := kind; ex_max_workers := max_workers;
                   ex_shutdown := false; ex_futures := [] |} in
      (Ok eid, set_next_id (S eid) (set_execs (<[eid := ex]> (execs w)) w)).

(** [executor.submit(task)]: the position of the new future in the
    table of the executor. *)
Definition submit (eid : nat) (t : Task) : M nat :=
  fun w =>
    match execs w !! eid with
    | None => (Raise RuntimeError, w)
    | Some ex =>
        if ex_shutdown ex then (Raise RuntimeError, w)
        else
          let fut := {| fut_task := t; fut_result := None |} in
          let ex' := set_futures (ex_futures ex ++ [fut]) ex in
          (Ok (length (ex_futures ex)),
           log [EvSubmit eid t] (set_execs (<[eid := ex']> (execs w)) w))
    end.

Definition task_calls (t : Task) : list TraceEv :=
  match t with
  | NoOp => []
  | Partial f args kwargs => [EvCall f args kwargs]
  end.

(** A worker of executor [eid] runs the pending task of future [fid] to
    its end. *)
Definition complete (eid fid : nat) (w : World) : World :=
  match execs w !! eid with
  | None => w
  | Some ex =>
      match ex_futures ex !! fid with
      | None => w
      | Some fut =>
          match fut_result fut with
          | Some _ => w
          | None =>
              let fut' := {| fut_task := fut_task fut;
                             fut_result := Some (run_task (fut_task fut)) |} in
              let ex' := set_futures (<[fid := fut']> (ex_futures ex)) ex in
              log (task_calls (fut_task fut))
                  (set_execs (<[eid := ex']> (execs w)) w)
          end
      end
  end.

Definition complete_all (eid : nat) (fids : list nat) (w : World) : World :=
  fold_left (fun w' fid => complete eid fid w') fids w.

Definition lookup_result (eid fid : nat) (w : World) : option (Outcome PyVal) :=
  match execs w !! eid with
  | None => None
  | Some ex =>
      match ex_futures ex !! fid with
      | None => None
      | Some fut => fut_result fut
      end
  end.

(** [future.result()]: the workers first finish the futures the scheduler
    picked, then the call blocks until its own future is done. *)
Definition future_result (eid fid : nat) : M PyVal :=
  fun w =>
    let w1 := complete_all eid (hd [] (sched w)) (set_sched (tl (sched w)) w) in
    let w2 := complete eid fid w1 in
    match lookup_result eid fid w2 with
    | Some r => (r, w2)
    | None => (Raise RuntimeError, w2)
    end.

(** [_EXECUTOR_CACHE.get(key)] *)
Definition cache_get (key : ExecutorType * Z) (w : World) : option nat :=
  match cache w !! key with
  | None => None
  | Some eid =>
      match execs w !! eid with
      | None => None
      | Some _ => Some eid
      end
  end.

(** [not (executor is None or executor._shutdown)] *)
Definition cached_live (key : ExecutorType * Z) (w : World) : option nat :=
  match cache_get key w with
  | None => None
  | Some eid =>
      match execs w !! eid with
      | None => None
      | Some ex => if ex_shutdown ex then None else Some eid
      end
  end.

Fixpoint submit_each (eid : nat) (ts : list Task) : M (list nat) :=
  match ts with
  | [] => ret []
  | t :: rest =>
      do f <- submit eid t;
      do fs <- submit_each eid rest;
      ret (f :: fs)
  end.

Fixpoint result_each (eid : nat) (fs : list nat) : M unit :=
  match fs with
  | [] => ret tt
  | f :: rest =>
      do _ <- future_result eid f;
      result_each eid rest
  end.

Definition get_or_create_executor
  (executor_type : ExecutorType) (max_workers : Z) (prewarm : bool) : M nat :=
  fun w =>
    let key := (executor_type, max_workers) in
    match cached_live key w with
    | Some eid => (Ok eid, w)
    | None =>
        (do eid <- new_executor executor_type max_workers;
         do _ <- (fun w' => (Ok tt, set_cache (<[key := eid]> (cache w')) w'));
         do _ <- (if prewarm then
                    do futures <-
                      submit_each eid (replicate (Z.to_nat max_workers) NoOp);
                    result_each eid futures
                  else ret tt);
         ret eid) w
    end.




(** ** The decorator [parallel] and its [wrapper] *)

(** The [rate_limit] argument: a number, a pair or a [RateLimit]. *)
Inductive RateLimitArg : Type :=
| RlNumber (c : Q)
| RlPair (c : Q) (i : TimeUnit)
| RlObject (rl : RateLimit).

(** The part of [config.execution] the decorator reads. *)
Record ExecutionConfig : Type := {
  default_max_workers : Z;
  default_executor_type : ExecutorType;
  default_batch_size : Z
}.

(** What the closure of [wrapper] captures. *)
Record Settings : Type := {
  workers : Z;
  batch : Z;
  exec_type : ExecutorType;
  rate_limit : option RateLimitArg;
  prewarm : bool
}.

(** The body of [decorator] before [wrapper] is defined: explicit
    arguments win over the global defaults.  The two [RuntimeWarning]s it
    may emit change nothing and are left out. *)
Definition parallel
  (max_workers batch_size : option Z) (rl : option RateLimitArg)
  (executor_type : option ExecutorType) (pw : bool)
  (config : ExecutionConfig) : Settings :=
  {| workers := match max_workers with
                | Some n => n
                | None => default_max_workers config
                end;
     batch := match batch_size with
              | Some n => n
              | None => default_batch_size config
              end;
     exec_type := match executor_type with
                  | Some k => k
                  | None => default_executor_type config
                  end;
     rate_limit := rl;
     prewarm := pw |}.

(** The detection of a bound method: the position of the item argument. *)
Definition items_arg_index (func : PyFunc) (args : list PyVal) : nat :=
  match args with
  | [] => 0%nat
  | a0 :: _ =>
      if has_dot (qualname func) then
        let cls_name := before_dot (qualname func) in
        if String.eqb (class_name a0) cls_name then 1%nat
        else if is_class_named a0 cls_name then 1%nat
        else 0%nat
      else 0%nat
  end.

(** [(args[0],)] *)
Definition first_arg (args : list PyVal) : M (list PyVal) :=
  match args with
  | [] => raise IndexError
  | a0 :: _ => ret [a0]
  end.

(** The rate limiter a batch call starts with. *)
Definition make_limiter (rl : option RateLimitArg) : M (option TokenBucket) :=
  fun w =>
    match rl with
    | None => (Ok None, w)
    | Some (RlPair c i) =>
        (map_outcome (fun r => Some (TokenBucket_init r None (clock w)))
                     (RateLimit_init c i), w)
    | Some (RlNumber c) =>
        (map_outcome (fun r => Some (TokenBucket_init r None (clock w)))
                     (RateLimit_init c Second), w)
    | Some (RlObject r) => (Ok (Some (TokenBucket_init r None (clock w))), w)
    end.

(** [rate_limiter.wait_for_token()] on the clock of the world *)
Definition limiter_wait (b : TokenBucket) : M TokenBucket :=
  fun w =>
    match wait_for_token (clock w) b with
    | Ok (t, b') => (Ok b', set_clock t (log [EvWait] w))
    | Raise e => (Raise e, log [EvWait] w)
    end.

(** The first loop of the [try] block, from item number [i] on:
    the list [futures_with_index]. *)
Fixpoint submit_items
  (func : PyFunc) (receiver other_args : list PyVal) (kwargs : Kwargs)
  (executor : nat) (rate_limiter : option TokenBucket)
  (i : nat) (items : list PyVal) : M (list (nat * nat)) :=
  match items with
  | [] => ret []
  | item :: rest =>
      do limiter <-
        match rate_limiter with
        | None => ret None
        | Some b => do b' <- limiter_wait b; ret (Some b')
        end;
      let task := Partial func (receiver ++ item :: other_args) kwargs in
      do future <- submit executor task;
      do more <- submit_items func receiver other_args kwargs executor
                   limiter (S i) rest;
      ret ((i, future) :: more)
  end.

(** The handler of the [try] block formats [idx] and raises again; before
    the second loop has started [idx] is not bound. *)
Definition except_handler (idx : option nat) (e : PyExc) : PyExc :=
  match idx with
  | None => UnboundLocalError
  | Some _ => e
  end.

(** [results[i] = result] *)
Definition store_result (results : list PyVal) (i : nat) (r : PyVal)
  : M (list PyVal) :=
  if (i <? length results)%nat then ret (<[i := r]> results)
  else raise IndexError.

(** The second loop of the [try] block, from position [idx] on. *)
Fixpoint collect_results
  (executor : nat) (idx : nat) (futures_with_index : list (nat * nat))
  (results : list PyVal) : M (list PyVal) :=
  match futures_with_index with
  | [] => ret results
  | (i, future) :: rest =>
      do result <- try_except (future_result executor future)
                              (except_handler (Some idx));
      do results' <- try_except (store_result results i result)
                                (except_handler (Some idx));
      collect_results executor (S idx) rest results'
  end.

Definition wrapper
  (s : Settings) (func : PyFunc) (args : list PyVal) (kwargs : Kwargs)
  : M PyVal :=
  let idx := items_arg_index func args in
  match
    match args !! idx with
    | None => None
    | Some a => as_sequence a
    end
  with
  | None =>
      do single_item_args <-
        (if (0 <? idx)%nat then
           do a0 <- first_arg args; ret (a0 ++ drop idx args)
         else ret (drop idx args));
      do r <- call func single_item_args kwargs;
      ret (VList [r])
  | Some items =>
      let other_args := drop (S idx) args in
      do executor <- get_or_create_executor (exec_type s) (workers s) (prewarm s);
      do rate_limiter <- make_limiter (rate_limit s);
      do receiver <- (if (idx =? 1)%nat then first_arg args else ret []);
      do futures_with_index <-
        try_except
          (submit_items func receiver other_args kwargs executor
                        rate_limiter 0 items)
          (except_handler None);
      do results <-
        collect_results executor 0 futures_with_index
                        (replicate (length items) VNone);
      ret (VList results)
  end.

(** ** Clients of the rate limiter *)

(** A caller of a bucket: [get_token] or [wait_for_token], entered when
    the clock shows [now]. *)
Inductive BucketOp : Type :=
| OpGet (now : Q)
| OpWait (now : Q).

(** What the caller sees: the boolean of [get_token], or the return of
    [wait_for_token] with the clock at that moment. *)
Inductive BucketReply : Type :=
| RGet (granted : bool)
| RWait (returned_at : Q).

Definition run_op (op : BucketOp) (b : TokenBucket)
  : Outcome BucketReply * TokenBucket :=
  match op with
  | OpGet now =>
      match get_token now b with
      | Ok (g, b') => (Ok (RGet g), b')
      | Raise e => (Raise e, b)
      end
  | OpWait now =>
      match wait_for_token now b with
      | Ok (t, b') => (Ok (RWait t), b')
      | Raise e => (Raise e, b)
      end
  end.

Fixpoint run_ops (ops : list BucketOp) (b : TokenBucket)
  : list (Outcome BucketReply) * TokenBucket :=
  match ops with
  | [] => ([], b)
  | op :: rest =>
      let (r, b1) := run_op op b in
      let (rs, b2) := run_ops rest b1 in
      (r :: rs, b2)
  end.

(** The clock at which an operation granted a permit, if it did. *)
Definition grant_time (op : BucketOp) (r : Outcome BucketReply) : option Q :=
  match op, r with
  | OpGet now, Ok (RGet true) => Some now
  | OpWait _, Ok (RWait t) => Some t
  | _, _ => None
  end.

Fixpoint grant_times (ops : list BucketOp) (rs : list (Outcome BucketReply))
  : list Q :=
  match ops, rs with
  | op :: ops', r :: rs' =>
      match grant_time op r with
      | Some t => t :: grant_times ops' rs'
      | None => grant_times ops' rs'
      end
  | _, _ => []
  end.

(** Consecutive elements are at least [d] apart. *)
Fixpoint spaced (d : Q) (ts : list Q) : Prop :=
  match ts with
  | [] => True
  | t :: rest =>
      match rest with
      | [] => True
      | t' :: _ => (t + d <= t')%Q
      end /\ spaced d rest
  end.

(** ** Vocabulary of the properties *)

Section LimiterVocabulary.

Local Open Scope Q_scope.

(** The loop of [wait_for_token] sleeps at most once. *)
Definition wake_time (now : Q) (b : TokenBucket) : Q :=
  if Qltb now (next_allowed b)
  then now + pymax (1 # 1000) (next_allowed b - now)
  else now.

(** The clock an operation reads when it decides. *)
Definition decision_time (op : BucketOp) (b : TokenBucket) : Q :=
  match op with
  | OpGet now => now
  | OpWait now => wake_time now b
  end.

Inductive op_spec (op : BucketOp) (b : TokenBucket)
  : Outcome BucketReply * TokenBucket -> Prop :=
| op_denied now :
    op = OpGet now -> now < next_allowed b ->
    op_spec op b (Ok (RGet false), b)
| op_raises :
    next_allowed b <= decision_time op b -> rate b == 0 ->
    op_spec op b (Raise ZeroDivisionError, b)
| op_granted r :
    next_allowed b <= decision_time op b -> ~ rate b == 0 ->
    grant_time op (Ok r) = Some (decision_time op b) ->
    op_spec op b
      (Ok r, set_next_allowed b
               (pymax (next_allowed b + 1 / rate b)
                      (decision_time op b + 1 / rate b))).

(** Two buckets with the same rate and the same [next_allowed] answer
    alike, whatever their other fields hold. *)
Definition same_pacing (b1 b2 : TokenBucket) : Prop :=
  rate b1 = rate b2 /\ next_allowed b1 = next_allowed b2.

Definition head_ge (x : Q) (ts : list Q) : Prop :=
  match ts with
  | [] => True
  | t :: _ => x <= t
  end.

End LimiterVocabulary.

(** The world seen from executor [eid]: its record, the clock, the
    schedule and what was logged since [w]. *)
Definition focus (w : World) (eid : nat) (ex : Executor)
  (t : Q) (s : list (list nat)) (tr : list TraceEv) : World :=
  {| clock := t; sched := s; cache := cache w;
     execs := <[eid := ex]> (execs w);
     next_id := next_id w; trace := trace w ++ tr |}.

Definition pending (t : Task) : Future :=
  {| fut_task := t; fut_result := None |}.

Definition finished (t : Task) : Future :=
  {| fut_task := t; fut_result := Some (run_task t) |}.

(** [complete] on the table of futures alone. *)
Definition complete_at (fid : nat) (fs : list Future) : list Future :=
  match fs !! fid with
  | None => fs
  | Some fut =>
      match fut_result fut with
      | Some _ => fs
      | None => <[fid := finished (fut_task fut)]> fs
      end
  end.

Definition calls_at (fid : nat) (fs : list Future) : list TraceEv :=
  match fs !! fid with
  | None => []
  | Some fut =>
      match fut_result fut with
      | Some _ => []
      | None => task_calls (fut_task fut)
      end
  end.

Fixpoint complete_list (fids : list nat) (fs : list Future)
  : list Future * list TraceEv :=
  match fids with
  | [] => (fs, [])
  | fid :: rest =>
      let (fs', tr) := complete_list rest (complete_at fid fs) in
      (fs', calls_at fid fs ++ tr)
  end.

Definition result_at (fid : nat) (fs : list Future) : option (Outcome PyVal) :=
  match fs !! fid with
  | None => None
  | Some fut => fut_result fut
  end.

(** The table of futures and the log after [future.result()]. *)
Definition after_result (choice : list nat) (fid : nat) (fs : list Future)
  : list Future * list TraceEv :=
  let (fs1, tr1) := complete_list choice fs in
  (complete_at fid fs1, tr1 ++ calls_at fid fs1).

(** The futures from position [base] on carry the tasks [tasks], and a
    future that has a result has the result of its task. *)
Definition fut_ok (t : Task) (fut : Future) : Prop :=
  fut_task fut = t /\
  (fut_result fut = None \/ fut_result fut = Some (run_task t)).

Definition holds (base : nat) (tasks : list Task) (fs : list Future) : Prop :=
  forall j t, tasks !! j = Some t ->
    exists fut, fs !! (base + j)%nat = Some fut /\ fut_ok t fut.

(** A table whose [n] futures are all warm-up tasks. *)
Definition warm (n : nat) (fs : list Future) : Prop :=
  length fs = n /\ holds 0 (replicate n NoOp) fs.

(** The world once [_EXECUTOR_CACHE[key]] points to a new executor, that
    executor left aside. *)
Definition created (w : World) (k : ExecutorType) (n : Z) : World :=
  {| clock := clock w; sched := sched w;
     cache := <[(k, n) := next_id w]> (cache w);
     execs := execs w; next_id := S (next_id w); trace := trace w |}.

(** The record of a new executor when [get_or_create_executor] returns. *)
Definition fresh_executor (k : ExecutorType) (n : Z) (p : bool) : Executor :=
  {| ex_kind := k; ex_max_workers := n; ex_shutdown := false;
     ex_futures := if p then replicate (Z.to_nat n) (finished NoOp) else [] |}.

Definition warm_up_log (eid : nat) (n : Z) (p : bool) : list TraceEv :=
  if p then replicate (Z.to_nat n) (EvSubmit eid NoOp) else [].

(** Identities are never handed out twice, and a cache entry whose
    executor is alive names an executor of that kind and size. *)
Definition wf_world (w : World) : Prop :=
  (forall eid ex, execs w !! eid = Some ex -> (eid < next_id w)%nat) /\
  (forall key eid, cache w !! key = Some eid ->
     (eid < next_id w)%nat /\
     forall ex, execs w !! eid = Some ex ->
       ex_kind ex = fst key /\ ex_max_workers ex = snd key /\ 0 < snd key).

(** The cache holds [e] under [key] and [e] is alive and not shut down. *)
Definition live (key : ExecutorType * Z) (e : nat) (w : World) : Prop :=
  cache w !! key = Some e /\
  exists ex, execs w !! e = Some ex /\ ex_shutdown ex = false.


(** Two executor records that differ at most in their futures. *)
Definition same_executor (o o' : option Executor) : Prop :=
  match o, o' with
  | None, None => True
  | Some ex, Some ex' =>
      ex_kind ex' = ex_kind ex /\
      ex_max_workers ex' = ex_max_workers ex /\
      ex_shutdown ex' = ex_shutdown ex
  | _, _ => False
  end.

(** Two worlds with the same cache and the same executors, futures
    apart. *)
Definition same_pools (w w' : World) : Prop :=
  cache w' = cache w /\ next_id w' = next_id w /\
  forall eid, same_executor (execs w !! eid) (execs w' !! eid).



(** The item argument of a call when it is a list or a tuple. *)
Definition batch_items (func : PyFunc) (args : list PyVal)
  : option (list PyVal) :=
  match args !! items_arg_index func args with
  | None => None
  | Some a => as_sequence a
  end.



(** [futures_with_index] for [n] items: item [i + j] waits on future
    [base + j]. *)
Fixpoint indexed (i base n : nat) : list (nat * nat) :=
  match n with
  | O => []
  | S n' => (i, base) :: indexed (S i) (S base) n'
  end.

(** The rate, in permits per second, of the limiter a batch call builds. *)
Definition limiter_rate (rl : option RateLimitArg) : option Q :=
  match rl with
  | None => None
  | Some (RlNumber c) => Some (per_second {| count := c; interval := Second |})
  | Some (RlPair c i) => Some (per_second {| count := c; interval := i |})
  | Some (RlObject r) => Some (per_second r)
  end.

Definition limiter_fails (rl : option RateLimitArg) : bool :=
  match limiter_rate rl with
  | None => false
  | Some r => Qeq_bool r 0
  end.

Definition limiter_ok (lim : option TokenBucket) : Prop :=
  match lim with
  | None => True
  | Some b => ~ (rate b == 0)%Q
  end.


Definition is_nil {A} (l : list A) : bool :=
  match l with
  | [] => true
  | _ :: _ => false
  end.




(** A wrapped function for the examples: [def double(x): return 2 * x]
    on integers; on anything else it raises. *)
Definition double : PyFunc :=
  {| qualname := "double";
     pf_call := fun args _ =>
       match args with
       | [VInt z] => Ok (VInt (2 * z))
       | _ => Raise (UserError "TypeError")
       end |}.

(** The defaults the decorator installs when [config.execution] is unset. *)
Definition default_config : ExecutionConfig :=
  {| default_max_workers := 4;
     default_executor_type := Thread;
     default_batch_size := 10 |}.

(** [@parallel(max_workers=4, rate_limit=5, prewarm=True)] *)
Definition paced : Settings :=
  parallel (Some 4) None (Some (RlNumber 5)) None true default_config.


(** ** Vocabulary of the further properties *)

(** The bucket after a permit was granted at clock [t]. *)
Definition granted (t : Q) (b : TokenBucket) : TokenBucket :=
  set_next_allowed b
    (pymax (next_allowed b + 1 / rate b)%Q (t + 1 / rate b)%Q).

(** The clock after [n] calls of [wait_for_token] in a row that start at
    clock [t], with nothing else moving the clock. *)
Fixpoint pace (lim : option TokenBucket) (n : nat) (t : Q) : Q :=
  match n, lim with
  | S n', Some b => pace (Some (granted (wake_time t b) b)) n' (wake_time t b)
  | _, _ => t
  end.

(** What the first loop of a batch call logs: for every item, in order,
    one wait when there is a limiter and one submission. *)
Fixpoint submit_log
  (func : PyFunc) (receiver other_args : list PyVal) (kwargs : Kwargs)
  (executor : nat) (limited : bool) (items : list PyVal) : list TraceEv :=
  match items with
  | [] => []
  | item :: rest =>
      (if limited then [EvWait] else []) ++
      EvSubmit executor
        (Partial func (receiver ++ item :: other_args) kwargs)
      :: submit_log func receiver other_args kwargs executor limited rest
  end.

Definition is_limited (lim : option TokenBucket) : bool :=
  match lim with
  | Some _ => true
  | None => false
  end.





(** The second loop of a batch call on the table of futures alone: the
    table, the schedule and the log when the loop ends, which it does at
    the first future that failed. *)
Fixpoint collect_table
  (s : list (list nat)) (fids : list nat) (fs : list Future)
  : list Future * list (list nat) * list TraceEv :=
  match fids with
  | [] => (fs, s, [])
  | fid :: rest =>
      let fs1 := fst (after_result (hd [] s) fid fs) in
      let tr1 := snd (after_result (hd [] s) fid fs) in
      match result_at fid fs1 with
      | Some (Ok _) =>
          let '(fs2, s2, tr2) := collect_table (tl s) rest fs1 in
          (fs2, s2, tr1 ++ tr2)
      | _ => (fs1, tl s, tr1)
      end
  end.

(** The tasks a batch call submits. *)
Definition item_tasks
  (func : PyFunc) (receiver other_args : list PyVal) (kwargs : Kwargs)
  (items : list PyVal) : list Task :=
  map (fun item => Partial func (receiver ++ item :: other_args) kwargs) items.


(** The limiter a batch call builds when the clock shows [t]. *)
Definition new_limiter (rl : option RateLimitArg) (t : Q)
  : option TokenBucket :=
  match rl with
  | None => None
  | Some (RlNumber c) =>
      Some (TokenBucket_init {| count := c; interval := Second |} None t)
  | Some (RlPair c i) =>
      Some (TokenBucket_init {| count := c; interval := i |} None t)
  | Some (RlObject r) => Some (TokenBucket_init r None t)
  end.


(** The world when a batch call that got executor [eid] (record [ex]) in
    world [w0] ends, its limiter having a rate other than zero. *)
Definition batch_world
  (s : Settings) (func : PyFunc) (args : list PyVal) (kwargs : Kwargs)
  (items : list PyVal) (w0 : World) (eid : nat) (ex : Executor) : World :=
  let receiver := take (items_arg_index func args) args in
  let other_args := drop (S (items_arg_index func args)) args in
  let lim := new_limiter (rate_limit s) (clock w0) in
  let '(fs', s', tr') :=
    collect_table (sched w0)
      (seq (length (ex_futures ex)) (length items))
      (ex_futures ex ++
         map pending (item_tasks func receiver other_args kwargs items)) in
  focus w0 eid (set_futures fs' ex)
    (pace lim (length items) (clock w0)) s'
    (submit_log func receiver other_args kwargs eid (is_limited lim) items
       ++ tr').

(** Whether the decorator was given a rate limit. *)
Definition limited (s : Settings) : bool :=
  match rate_limit s with
  | Some _ => true
  | None => false
  end.




(** ** Configuration: [config.py] and [config_manager.py]

    Python floats are rationals here too.  What [int] and [float] make of
    a string is left to the two parsers the section takes; on the other
    values they are written out.  A dict is the list of its items in
    insertion order, with no key twice. *)

Module config.

Inductive CfgVal : Type :=
| CNone
| CBool (b : bool)
| CInt (z : Z)
| CFloat (q : Q)
| CStr (s : string)
| CDict (d : list (string * CfgVal)).

Definition Dict : Type := list (string * CfgVal).

(** [k in d] and [d.get(k)] *)
Fixpoint dict_get (k : string) (d : Dict) : option CfgVal :=
  match d with
  | [] => None
  | (k', v) :: rest => if String.eqb k k' then Some v else dict_get k rest
  end.

(** [d[k] = v]: a key that is there keeps its place. *)
Fixpoint dict_set (k : string) (v : CfgVal) (d : Dict) : Dict :=
  match d with
  | [] => [(k, v)]
  | (k', v') :: rest =>
      if String.eqb k k' then (k', v) :: rest
      else (k', v') :: dict_set k v rest
  end.

(** [del d[k]], [d.pop(k, None)] *)
Fixpoint dict_del (k : string) (d : Dict) : Dict :=
  match d with
  | [] => []
  | (k', v') :: rest =>
      if String.eqb k k' then rest else (k', v') :: dict_del k rest
  end.

(** [d.update(u)] *)
Definition dict_update (d u : Dict) : Dict :=
  fold_left (fun acc kv => dict_set (fst kv) (snd kv) acc) u d.

(** [d.get(k, default)] *)
Definition dict_get_default (k : string) (default : CfgVal) (d : Dict)
  : CfgVal :=
  match dict_get k d with
  | Some v => v
  | None => default
  end.

(** [bool(v)] *)
Definition truthy (v : CfgVal) : bool :=
  match v with
  | CNone => false
  | CBool b => b
  | CInt z => negb (Z.eqb z 0)
  | CFloat q => negb (Qeq_bool q 0)
  | CStr s => negb (String.eqb s "")
  | CDict d => negb (is_nil d)
  end.

Definition TypeError : PyExc := UserError "TypeError".
Definition AttributeError : PyExc := UserError "AttributeError".

Section Parsers.

Variable int_of_str : string -> option Z.
Variable float_of_str : string -> option Q.

(** [int(value)] *)
Definition py_int (value : CfgVal) : Outcome Z :=
  match value with
  | CInt z => Ok z
  | CBool b => Ok (if b then 1 else 0)
  | CFloat q => Ok (Z.quot (Qnum q) (Z.pos (Qden q)))
  | CStr s =>
      match int_of_str s with
      | Some z => Ok z
      | None => Raise ValueError
      end
  | CNone => Raise TypeError
  | CDict _ => Raise TypeError
  end.

(** [float(value)] *)
Definition py_float (value : CfgVal) : Outcome Q :=
  match value with
  | CFloat q => Ok q
  | CInt z => Ok (inject_Z z)
  | CBool b => Ok (if b then 1 else 0)%Q
  | CStr s =>
      match float_of_str s with
      | Some q => Ok q
      | None => Raise ValueError
      end
  | CNone => Raise TypeError
  | CDict _ => Raise TypeError
  end.

(** [except (TypeError, ValueError) as exc: raise ValueError(...) from exc] *)
Definition as_value_error (e : PyExc) : PyExc :=
  match e with
  | ValueError => ValueError
  | UserError "TypeError" => ValueError
  | other => other
  end.

Definition ensure_min_int (value : CfgVal) (minimum : Z) : Outcome Z :=
  match py_int value with
  | Raise e => Raise (as_value_error e)
  | Ok ivalue => Ok (Z.max ivalue minimum)
  end.

Definition ensure_non_negative_float (value : CfgVal) : Outcome Q :=
  match py_float value with
  | Raise e => Raise (as_value_error e)
  | Ok fvalue => if Qltb fvalue 0 then Raise ValueError else Ok fvalue
  end.

Record ExecutionConfig : Type := {
  ec_max_workers : Z;
  ec_timeout : Q;
  ec_default_max_workers : Z;
  ec_default_executor_type : CfgVal;
  ec_default_batch_size : Z;
  ec_extra : Dict
}.

(** [ExecutionConfig(...)]: the generated [__init__] followed by
    [__post_init__]. *)
Definition ExecutionConfig_init
  (max_workers timeout default_max_workers default_executor_type
     default_batch_size : CfgVal) (extra : Dict) : Outcome ExecutionConfig :=
  match ensure_min_int max_workers 1 with
  | Raise e => Raise e
  | Ok mw =>
  match ensure_non_negative_float timeout with
  | Raise e => Raise e
  | Ok t =>
  match ensure_min_int default_max_workers 1 with
  | Raise e => Raise e
  | Ok dmw =>
  match ensure_min_int default_batch_size 1 with
  | Raise e => Raise e
  | Ok dbs =>
      Ok {| ec_max_workers := mw; ec_timeout := t;
            ec_default_max_workers := dmw;
            ec_default_executor_type := default_executor_type;
            ec_default_batch_size := dbs; ec_extra := extra |}
  end end end end.

Definition execution_known_keys : list string :=
  ["max_workers"; "timeout"; "default_max_workers"; "default_executor_type";
   "default_batch_size"].

Definition is_known (known : list string) (k : string) : bool :=
  existsb (String.eqb k) known.

(** [{k: v for k, v in data.items() if k not in known_keys}] *)
Definition unknown_items (known : list string) (data : Dict) : Dict :=
  List.filter (fun kv => negb (is_known known (fst kv))) data.

Definition set_ec_extra (extra : Dict) (c : ExecutionConfig)
  : ExecutionConfig :=
  {| ec_max_workers := ec_max_workers c; ec_timeout := ec_timeout c;
     ec_default_max_workers := ec_default_max_workers c;
     ec_default_executor_type := ec_default_executor_type c;
     ec_default_batch_size := ec_default_batch_size c; ec_extra := extra |}.

(** [ExecutionConfig.from_dict]: a key that is missing takes the default
    of the dataclass. *)
Definition ExecutionConfig_from_dict (data : Dict) : Outcome ExecutionConfig :=
  match
    ExecutionConfig_init
      (dict_get_default "max_workers" (CInt 4) data)
      (dict_get_default "timeout" (CFloat 30) data)
      (dict_get_default "default_max_workers" (CInt 4) data)
      (dict_get_default "default_executor_type" (CStr "thread") data)
      (dict_get_default "default_batch_size" (CInt 10) data)
      []
  with
  | Raise e => Raise e
  | Ok c => Ok (set_ec_extra (unknown_items execution_known_keys data) c)
  end.

(** [ExecutionConfig.model_dump] *)
Definition ExecutionConfig_model_dump (c : ExecutionConfig) : Dict :=
  let data :=
    [("max_workers", CInt (ec_max_workers c));
     ("timeout", CFloat (ec_timeout c));
     ("default_max_workers", CInt (ec_default_max_workers c));
     ("default_executor_type", ec_default_executor_type c);
     ("default_batch_size", CInt (ec_default_batch_size c));
     ("extra", CDict (ec_extra c))] in
  let data := if is_nil (ec_extra c) then data
              else dict_update data (ec_extra c) in
  dict_del "extra" data.

Record RateLimitingConfig : Type := {
  rc_rate : Z;
  rc_interval : CfgVal;
  rc_extra : Dict
}.

Definition RateLimitingConfig_init (rate interval : CfgVal) (extra : Dict)
  : Outcome RateLimitingConfig :=
  match ensure_min_int rate 0 with
  | Raise e => Raise e
  | Ok r => Ok {| rc_rate := r; rc_interval := interval; rc_extra := extra |}
  end.

Definition rate_known_keys : list string := ["rate"; "interval"].

Definition RateLimitingConfig_from_dict (data : Dict)
  : Outcome RateLimitingConfig :=
  match
    RateLimitingConfig_init
      (dict_get_default "rate" (CInt 1000) data)
      (dict_get_default "interval" (CStr "minute") data)
      []
  with
  | Raise e => Raise e
  | Ok c => Ok {| rc_rate := rc_rate c; rc_interval := rc_interval c;
                  rc_extra := unknown_items rate_known_keys data |}
  end.

Definition RateLimitingConfig_model_dump (c : RateLimitingConfig) : Dict :=
  let data :=
    [("rate", CInt (rc_rate c));
     ("interval", rc_interval c);
     ("extra", CDict (rc_extra c))] in
  let data := if is_nil (rc_extra c) then data
              else dict_update data (rc_extra c) in
  dict_del "extra" data.

(** What the field [execution] can hold: an [ExecutionConfig], or a
    plain value ([None], a dict, or anything else it was given). *)
Inductive ExecutionField : Type :=
| EfConfig (c : ExecutionConfig)
| EfValue (v : CfgVal).

Inductive RateLimitingField : Type :=
| RfConfig (c : RateLimitingConfig)
| RfValue (v : CfgVal).

Record PyarallelConfig : Type := {
  pc_max_workers : Z;
  pc_timeout : Q;
  pc_execution : ExecutionField;
  pc_rate_limiting : RateLimitingField;
  pc_error_handling : Dict;
  pc_monitoring : Dict;
  pc_memory_limit : option Z;
  pc_cpu_affinity : bool;
  pc_debug : bool;
  pc_log_level : CfgVal
}.

Definition set_ec_max_workers (n : Z) (c : ExecutionConfig)
  : ExecutionConfig :=
  {| ec_max_workers := n; ec_timeout := ec_timeout c;
     ec_default_max_workers := ec_default_max_workers c;
     ec_default_executor_type := ec_default_executor_type c;
     ec_default_batch_size := ec_default_batch_size c;
     ec_extra := ec_extra c |}.

Definition set_ec_timeout (t : Q) (c : ExecutionConfig) : ExecutionConfig :=
  {| ec_max_workers := ec_max_workers c; ec_timeout := t;
     ec_default_max_workers := ec_default_max_workers c;
     ec_default_executor_type := ec_default_executor_type c;
     ec_default_batch_size := ec_default_batch_size c;
     ec_extra := ec_extra c |}.

(** The block [if self.execution:] of [PyarallelConfig.__post_init__]:
    the two numbers of the nested configuration are checked and then
    aligned with the top-level ones.  It returns the top-level
    [max_workers] and [timeout] and the field. *)
Definition align_execution (mw : Z) (t : Q) (execution : ExecutionField)
  : Outcome (Z * Q * ExecutionField) :=
  match execution with
  | EfValue v =>
      if truthy v then Raise AttributeError else Ok (mw, t, execution)
  | EfConfig c =>
      match ensure_min_int (CInt (ec_max_workers c)) 1 with
      | Raise e => Raise e
      | Ok emw =>
      match ensure_non_negative_float (CFloat (ec_timeout c)) with
      | Raise e => Raise e
      | Ok et =>
          let c := set_ec_timeout et (set_ec_max_workers emw c) in
          let '(mw, c) :=
            if negb (Z.eqb mw (ec_max_workers c))
            then (mw, set_ec_max_workers mw c)
            else (ec_max_workers c, c) in
          let '(t, c) :=
            if negb (Qeq_bool t (ec_timeout c))
            then (t, set_ec_timeout t c)
            else (ec_timeout c, c) in
          Ok (mw, t, EfConfig c)
      end end
  end.

Definition default_error_handling : Dict := [("retry_count", CInt 3)].
Definition default_monitoring : Dict := [("enabled", CBool false)].

Definition dict_or (v : CfgVal) (default : Dict) : Dict :=
  match v with
  | CDict d => d
  | _ => default
  end.

(** [PyarallelConfig(...)]: the generated [__init__] followed by
    [__post_init__]. *)
Definition PyarallelConfig_init
  (max_workers timeout : CfgVal) (execution : ExecutionField)
  (rate_limiting : RateLimitingField)
  (error_handling monitoring memory_limit cpu_affinity debug log_level
     : CfgVal)
  : Outcome PyarallelConfig :=
  match ensure_min_int max_workers 1 with
  | Raise e => Raise e
  | Ok mw =>
  match ensure_non_negative_float timeout with
  | Raise e => Raise e
  | Ok t =>
  match
    match execution with
    | EfValue (CDict d) => map_outcome EfConfig (ExecutionConfig_from_dict d)
    | EfValue CNone =>
        map_outcome EfConfig
          (ExecutionConfig_init (CInt mw) (CFloat t) (CInt 4) (CStr "thread")
                                (CInt 10) [])
    | other => Ok other
    end
  with
  | Raise e => Raise e
  | Ok execution =>
  match align_execution mw t execution with
  | Raise e => Raise e
  | Ok (mw, t, execution) =>
  match
    match rate_limiting with
    | RfValue (CDict d) =>
        map_outcome RfConfig (RateLimitingConfig_from_dict d)
    | other => Ok other
    end
  with
  | Raise e => Raise e
  | Ok rate_limiting =>
  match
    match memory_limit with
    | CNone => Ok None
    | v => map_outcome Some (ensure_min_int v 0)
    end
  with
  | Raise e => Raise e
  | Ok memory_limit =>
      Ok {| pc_max_workers := mw; pc_timeout := t;
            pc_execution := execution;
            pc_rate_limiting := rate_limiting;
            pc_error_handling := dict_or error_handling default_error_handling;
            pc_monitoring := dict_or monitoring default_monitoring;
            pc_memory_limit := memory_limit;
            pc_cpu_affinity := truthy cpu_affinity;
            pc_debug := truthy debug;
            pc_log_level := log_level |}
  end end end end end end.

(** [x.model_dump() if x else None] for the two nested fields *)
Definition dump_execution (f : ExecutionField) : Outcome CfgVal :=
  match f with
  | EfConfig c => Ok (CDict (ExecutionConfig_model_dump c))
  | EfValue v => if truthy v then Raise AttributeError else Ok CNone
  end.

Definition dump_rate_limiting (f : RateLimitingField) : Outcome CfgVal :=
  match f with
  | RfConfig c => Ok (CDict (RateLimitingConfig_model_dump c))
  | RfValue v => if truthy v then Raise AttributeError else Ok CNone
  end.

Definition dump_optional_int (o : option Z) : CfgVal :=
  match o with
  | Some z => CInt z
  | None => CNone
  end.

(** [PyarallelConfig.model_dump] *)
Definition PyarallelConfig_model_dump (c : PyarallelConfig) : Outcome Dict :=
  match dump_execution (pc_execution c) with
  | Raise e => Raise e
  | Ok execution =>
  match dump_rate_limiting (pc_rate_limiting c) with
  | Raise e => Raise e
  | Ok rate_limiting =>
      Ok [("max_workers", CInt (pc_max_workers c));
          ("timeout", CFloat (pc_timeout c));
          ("execution", execution);
          ("rate_limiting", rate_limiting);
          ("error_handling", CDict (pc_error_handling c));
          ("monitoring", CDict (pc_monitoring c));
          ("memory_limit", dump_optional_int (pc_memory_limit c));
          ("cpu_affinity", CBool (pc_cpu_affinity c));
          ("debug", CBool (pc_debug c));
          ("log_level", pc_log_level c)]
  end end.

(** [PyarallelConfig.from_dict] *)
Definition PyarallelConfig_from_dict (config_dict : Dict)
  : Outcome PyarallelConfig :=
  match
    match dict_get_default "execution" CNone config_dict with
    | CDict d => map_outcome EfConfig (ExecutionConfig_from_dict d)
    | v => Ok (EfValue v)
    end
  with
  | Raise e => Raise e
  | Ok execution =>
  match
    match dict_get_default "rate_limiting" CNone config_dict with
    | CDict d => map_outcome RfConfig (RateLimitingConfig_from_dict d)
    | v => Ok (RfValue v)
    end
  with
  | Raise e => Raise e
  | Ok rate_limiting =>
      PyarallelConfig_init
        (dict_get_default "max_workers" (CInt 4) config_dict)
        (dict_get_default "timeout" (CFloat 30) config_dict)
        execution rate_limiting
        (dict_get_default "error_handling" (CDict default_error_handling)
                          config_dict)
        (dict_get_default "monitoring" (CDict default_monitoring) config_dict)
        (dict_get_default "memory_limit" CNone config_dict)
        (dict_get_default "cpu_affinity" (CBool false) config_dict)
        (dict_get_default "debug" (CBool false) config_dict)
        (dict_get_default "log_level" (CStr "INFO") config_dict)
  end end.

(** The value [_deep_merge] stores under a key that holds [old] and is
    updated with [value]: the merge of the two when both are dicts,
    [value] otherwise. *)
Fixpoint merge_value (old : option CfgVal) (value : CfgVal) {struct value}
  : CfgVal :=
  match old, value with
  | Some (CDict base), CDict updates =>
      CDict
        ((fix go (result : Dict) (us : list (string * CfgVal)) {struct us}
            : Dict :=
            match us with
            | [] => result
            | (key, v) :: rest =>
                go (dict_set key (merge_value (dict_get key result) v) result)
                   rest
            end) base updates)
  | _, _ => value
  end.

(** [ConfigManager._deep_merge] *)
Definition deep_merge (base updates : Dict) : Dict :=
  fold_left
    (fun result kv =>
       dict_set (fst kv) (merge_value (dict_get (fst kv) result) (snd kv))
                result)
    updates base.

(** [x < 1] for what [updates["max_workers"]] may hold *)
Definition less_than_one (v : CfgVal) : Outcome bool :=
  match v with
  | CInt z => Ok (z <? 1)
  | CBool b => Ok (negb b)
  | CFloat q => Ok (Qltb q 1)
  | _ => Raise TypeError
  end.

(** The first steps of [update_config]: the items of
    [updates["execution"]] are moved to the top of [updates]. *)
Definition flatten_execution (updates : Dict) : Outcome Dict :=
  match dict_get "execution" updates with
  | None => Ok updates
  | Some (CDict items) => Ok (dict_del "execution" (dict_update updates items))
  | Some _ => Raise AttributeError
  end.

(** [if "max_workers" in updates and updates["max_workers"] < 1] *)
Definition clamp_max_workers (updates : Dict) : Outcome Dict :=
  match dict_get "max_workers" updates with
  | None => Ok updates
  | Some v =>
      match less_than_one v with
      | Raise e => Raise e
      | Ok true => Ok (dict_set "max_workers" (CInt 1) updates)
      | Ok false => Ok updates
      end
  end.

(** [ConfigManager.update_config]: the new [self._config]. *)
Definition update_config (updates : Dict) (current : PyarallelConfig)
  : Outcome PyarallelConfig :=
  match PyarallelConfig_model_dump current with
  | Raise e => Raise e
  | Ok current_config =>
  match flatten_execution updates with
  | Raise e => Raise e
  | Ok updates =>
  match clamp_max_workers updates with
  | Raise e => Raise e
  | Ok updates =>
      PyarallelConfig_from_dict (deep_merge current_config updates)
  end end end.

(** [PyarallelConfig()] *)
Definition PyarallelConfig_default : Outcome PyarallelConfig :=
  match ExecutionConfig_init (CInt 4) (CFloat 30) (CInt 4) (CStr "thread")
                             (CInt 10) [] with
  | Raise e => Raise e
  | Ok c =>
      PyarallelConfig_init (CInt 4) (CFloat 30) (EfConfig c) (RfValue CNone)
        (CDict default_error_handling) (CDict default_monitoring)
        CNone (CBool false) (CBool false) (CStr "INFO")
  end.

End Parsers.

End config.

(** ** Vocabulary of the configuration properties *)

Definition dict_keys (d : config.Dict) : list string := map fst d.

(** No key twice, as in every Python dict. *)
Definition dict_wf (d : config.Dict) : Prop := NoDup (dict_keys d).

(** The numbers of an [ExecutionConfig] are in range. *)
Definition valid_execution (c : config.ExecutionConfig) : Prop :=
  1 <= config.ec_max_workers c /\
  (0 <= config.ec_timeout c)%Q /\
  1 <= config.ec_default_max_workers c /\
  1 <= config.ec_default_batch_size c.

(** The extra items of a configuration read from a dict: none of them
    under a name of a field, none under ["extra"]. *)
Definition clean_extra (known : list string) (extra : config.Dict) : Prop :=
  dict_wf extra /\
  forall k, In k (dict_keys extra) ->
    config.is_known known k = false /\ k <> "extra"%string.

(** Two [ExecutionConfig]s that differ at most in [max_workers] and
    [timeout]. *)
Definition same_defaults (c c' : config.ExecutionConfig) : Prop :=
  config.ec_default_max_workers c' = config.ec_default_max_workers c /\
  config.ec_default_executor_type c' = config.ec_default_executor_type c /\
  config.ec_default_batch_size c' = config.ec_default_batch_size c /\
  config.ec_extra c' = config.ec_extra c.

(** The nested configuration agrees with the top-level numbers. *)
Definition aligned (cfg : config.PyarallelConfig) : Prop :=
  match config.pc_execution cfg with
  | config.EfConfig e =>
      config.ec_max_workers e = config.pc_max_workers cfg /\
      config.ec_timeout e = config.pc_timeout cfg
  | config.EfValue v => config.truthy v = false
  end.


(** What an update asks for under a key: the value nested under
    ["execution"] when there is one, the top-level one otherwise. *)
Definition requested (k : string) (updates : config.Dict)
  : option config.CfgVal :=
  match config.dict_get "execution" updates with
  | Some (config.CDict items) =>
      match config.dict_get k items with
      | Some v => Some v
      | None => config.dict_get k updates
      end
  | _ => config.dict_get k updates
  end.

(** The dicts nested under ["execution"] have no key twice either. *)
Definition nested_wf (updates : config.Dict) : Prop :=
  forall items,
    config.dict_get "execution" updates = Some (config.CDict items) ->
    dict_wf items.



(** * Properties *)

(** ** The rate limiter *)

Section Limiter.

Local Open Scope Q_scope.

Lemma Qltb_lt (x y : Q) : Qltb x y = true <-> x < y.
Proof.
  unfold Qltb. rewrite negb_true_iff. split.
  - intros H. apply Qnot_le_lt. intros L.
    apply Qle_bool_iff in L. congruence.
  - intros H. destruct (Qle_bool y x) eqn:E; [|reflexivity].
    apply Qle_bool_iff in E. lra.
Qed.

Lemma Qltb_ge (x y : Q) : Qltb x y = false <-> y <= x.
Proof.
  unfold Qltb. rewrite negb_false_iff. apply Qle_bool_iff.
Qed.

Lemma pymax_ge_l (a b : Q) : a <= pymax a b.
Proof.
  unfold pymax. destruct (Qltb a b) eqn:E; [apply Qltb_lt in E|]; lra.
Qed.

Lemma pymax_ge_r (a b : Q) : b <= pymax a b.
Proof.
  unfold pymax. destruct (Qltb a b) eqn:E; [|apply Qltb_ge in E]; lra.
Qed.

Lemma pymax_le_r (a b : Q) : a <= b -> pymax a b == b.
Proof.
  unfold pymax. intros H. destruct (Qltb a b) eqn:E; [|apply Qltb_ge in E]; lra.
Qed.

Lemma one_over_nonzero (r : Q) : ~ r == 0 -> one_over r = Ok (1 / r).
Proof.
  intros H. unfold one_over. destruct (Qeq_bool r 0) eqn:E; [|reflexivity].
  apply Qeq_bool_iff in E. contradiction.
Qed.

Lemma one_over_zero (r : Q) : r == 0 -> one_over r = Raise ZeroDivisionError.
Proof.
  intros H. unfold one_over. apply Qeq_bool_iff in H. now rewrite H.
Qed.

Lemma one_over_pos (r : Q) : 0 < r -> 0 < 1 / r.
Proof.
  intros H. unfold Qdiv. rewrite Qmult_1_l. now apply Qinv_lt_0_compat.
Qed.

Lemma advance_nonzero (now : Q) (b : TokenBucket) :
  ~ rate b == 0 ->
  advance now b =
  Ok (set_next_allowed b
        (pymax (next_allowed b + 1 / rate b) (now + 1 / rate b))).
Proof.
  intros H. unfold advance. now rewrite (one_over_nonzero _ H).
Qed.

Lemma advance_zero (now : Q) (b : TokenBucket) :
  rate b == 0 -> advance now b = Raise ZeroDivisionError.
Proof.
  intros H. unfold advance. now rewrite (one_over_zero _ H).
Qed.

Lemma wake_time_reached (now : Q) (b : TokenBucket) :
  next_allowed b <= wake_time now b.
Proof.
  unfold wake_time. destruct (Qltb now (next_allowed b)) eqn:E.
  - pose proof (pymax_ge_r (1 # 1000) (next_allowed b - now)). lra.
  - now apply Qltb_ge in E.
Qed.

Lemma wait_for_token_eq (now : Q) (b : TokenBucket) :
  wait_for_token now b =
  map_outcome (fun b' => (wake_time now b, b')) (advance (wake_time now b) b).
Proof.
  funelim (wait_for_token now b).
  - rewrite H. clear H H0 Heqcall.
    assert (S : Qltb (now + pymax (1 # 1000) (next_allowed b - now))
                  (next_allowed b) = false).
    { apply Qltb_ge.
      pose proof (pymax_ge_r (1 # 1000) (next_allowed b - now)). lra. }
    unfold wake_time. now rewrite S, E.
  - unfold wake_time.
    match goal with H : Qltb _ _ = false |- _ => now rewrite H end.
Qed.

Lemma run_op_spec (op : BucketOp) (b : TokenBucket) :
  op_spec op b (run_op op b).
Proof.
  destruct op as [now|now]; unfold run_op.
  - unfold get_token. destruct (Qltb now (next_allowed b)) eqn:E.
    + apply (op_denied _ _ now); [reflexivity | now apply Qltb_lt].
    + apply Qltb_ge in E.
      destruct (Qeq_dec (rate b) 0) as [Z|NZ].
      * rewrite (advance_zero _ _ Z). simpl. now apply op_raises.
      * rewrite (advance_nonzero _ _ NZ). simpl.
        now apply (op_granted (OpGet now) b (RGet true)).
  - rewrite wait_for_token_eq.
    pose proof (wake_time_reached now b) as R.
    destruct (Qeq_dec (rate b) 0) as [Z|NZ].
    + rewrite (advance_zero _ _ Z). simpl. now apply op_raises.
    + rewrite (advance_nonzero _ _ NZ). simpl.
      now apply (op_granted (OpWait now) b (RWait (wake_time now b))).
Qed.

Lemma run_op_rate (op : BucketOp) (b : TokenBucket) :
  rate (snd (run_op op b)) = rate b.
Proof. destruct (run_op_spec op b); reflexivity. Qed.

Lemma run_ops_rate (ops : list BucketOp) (b : TokenBucket) :
  rate (snd (run_ops ops b)) = rate b.
Proof.
  revert b. induction ops as [|op ops IH]; intros b; simpl; [reflexivity|].
  pose proof (run_op_rate op b) as R.
  destruct (run_op op b) as [r b1]. simpl in R.
  specialize (IH b1). destruct (run_ops ops b1) as [rs b2]. simpl in *.
  congruence.
Qed.

Lemma run_ops_app (ops1 ops2 : list BucketOp) (b : TokenBucket) :
  snd (run_ops (ops1 ++ ops2) b) = snd (run_ops ops2 (snd (run_ops ops1 b))).
Proof.
  revert b. induction ops1 as [|op ops1 IH]; intros b; simpl; [reflexivity|].
  destruct (run_op op b) as [r b1]. specialize (IH b1).
  destruct (run_ops (ops1 ++ ops2) b1) as [rs b2].
  destruct (run_ops ops1 b1) as [rs1 b3]. simpl in *. exact IH.
Qed.

Lemma run_op_monotone (op : BucketOp) (b : TokenBucket) :
  0 < rate b -> next_allowed b <= next_allowed (snd (run_op op b)).
Proof.
  intros P. pose proof (one_over_pos _ P) as D.
  destruct (run_op_spec op b); simpl; try lra.
  pose proof (pymax_ge_l (next_allowed b + 1 / rate b)
                         (decision_time op b + 1 / rate b)). lra.
Qed.

Lemma run_ops_monotone (ops : list BucketOp) (b : TokenBucket) :
  0 < rate b -> next_allowed b <= next_allowed (snd (run_ops ops b)).
Proof.
  revert b. induction ops as [|op ops IH]; intros b P; simpl; [lra|].
  pose proof (run_op_monotone op b P) as M1.
  pose proof (run_op_rate op b) as R.
  destruct (run_op op b) as [r b1]. simpl in *.
  assert (P1 : 0 < rate b1) by now rewrite R.
  specialize (IH b1 P1). destruct (run_ops ops b1) as [rs b2]. simpl in *.
  lra.
Qed.

Lemma run_op_same_pacing (op : BucketOp) (b1 b2 : TokenBucket) :
  same_pacing b1 b2 ->
  fst (run_op op b1) = fst (run_op op b2) /\
  same_pacing (snd (run_op op b1)) (snd (run_op op b2)).
Proof.
  intros [R N]. unfold same_pacing.
  destruct op as [now|now]; unfold run_op.
  - unfold get_token, advance. rewrite R, N.
    destruct (Qltb now (next_allowed b2)); simpl; [now split|].
    destruct (one_over (rate b2)); simpl; now repeat split.
  - rewrite !wait_for_token_eq. unfold wake_time, advance. rewrite R, N.
    destruct (one_over (rate b2)); simpl; now repeat split.
Qed.

Lemma run_ops_same_pacing (ops : list BucketOp) (b1 b2 : TokenBucket) :
  same_pacing b1 b2 ->
  fst (run_ops ops b1) = fst (run_ops ops b2) /\
  same_pacing (snd (run_ops ops b1)) (snd (run_ops ops b2)).
Proof.
  revert b1 b2. induction ops as [|op ops IH]; intros b1 b2 S; simpl.
  - now split.
  - destruct (run_op_same_pacing op b1 b2 S) as [F S1].
    destruct (run_op op b1) as [r1 c1], (run_op op b2) as [r2 c2].
    simpl in F, S1. destruct (IH c1 c2 S1) as [F2 S2].
    destruct (run_ops ops c1) as [rs1 d1], (run_ops ops c2) as [rs2 d2].
    simpl in *. split; [congruence | assumption].
Qed.

Lemma grants_spaced (ops : list BucketOp) (b : TokenBucket) :
  spaced (1 / rate b) (grant_times ops (fst (run_ops ops b))) /\
  head_ge (next_allowed b) (grant_times ops (fst (run_ops ops b))).
Proof.
  revert b. induction ops as [|op ops IH]; intros b; simpl; [now split|].
  pose proof (run_op_spec op b) as SP.
  destruct (run_op op b) as [r b1].
  specialize (IH b1). destruct (run_ops ops b1) as [rs b2]. simpl in *.
  inversion SP; subst; simpl.
  - exact IH.
  - destruct op; exact IH.
  - match goal with H : grant_time _ _ = Some _ |- _ => rewrite H end.
    destruct IH as [IH1 IH2]. simpl in *.
    split; [|assumption]. split; [|assumption].
    destruct (grant_times ops rs) as [|t' ts]; [exact I|]. simpl in IH2.
    pose proof (pymax_ge_r (next_allowed b + 1 / rate b)
                           (decision_time op b + 1 / rate b)). lra.
Qed.

(** C3, as the code has it: [RateLimit] is built without any check of
    [count], so a zero or negative count is accepted; and on a bucket
    built from a [RateLimit] whose count is not zero, no [get_token] and
    no [wait_for_token] raises. *)
Theorem rate_limit_is_unchecked (c : Q) (i : TimeUnit) :
  RateLimit_init c i = Ok {| count := c; interval := i |} /\
  (~ c == 0 ->
   forall (cap : option Z) (t0 : Q) (ops : list BucketOp),
     Forall (fun r => is_ok r = true)
       (fst (run_ops ops
               (TokenBucket_init {| count := c; interval := i |} cap t0)))).
Proof.
  split; [reflexivity|]. intros NZ cap t0 ops.
  assert (R : ~ rate (TokenBucket_init {| count := c; interval := i |} cap t0)
                == 0).
  { simpl. unfold per_second. simpl. intros H. apply NZ.
    assert (M : ~ multiplier i == 0) by (destruct i; simpl; lra).
    rewrite <- (Qmult_div_r c (multiplier i) M), H. ring. }
  generalize dependent
    (TokenBucket_init {| count := c; interval := i |} cap t0).
  induction ops as [|op ops IH]; intros b R; simpl; [constructor|].
  pose proof (run_op_spec op b) as SP.
  pose proof (run_op_rate op b) as RR.
  destruct (run_op op b) as [r b1]. simpl in RR.
  assert (R1 : ~ rate b1 == 0) by now rewrite RR.
  specialize (IH b1 R1). destruct (run_ops ops b1) as [rs b2]. simpl in *.
  constructor; [|assumption].
  inversion SP; subst; try reflexivity. contradiction.
Qed.

Lemma rate_limit_is_unchecked_witness :
  RateLimit_init (-3) Minute = Ok {| count := -3; interval := Minute |} /\
  Forall (fun r => is_ok r = true)
    (fst (run_ops [OpGet 1; OpWait 1; OpGet 2]
            (TokenBucket_init {| count := -3; interval := Minute |}
                              (Some 7%Z) 0))).
Proof.
  destruct (rate_limit_is_unchecked (-3) Minute) as [C O].
  split; [exact C|]. apply O. intros H. discriminate H.
Defined.

(** C3, refuted as stated: a [RateLimit] with count zero is built without
    an error, and the error comes when the bucket made from it is asked for
    its first permit. *)
Lemma rate_limit_zero_fails_late :
  RateLimit_init 0 Second = Ok {| count := 0; interval := Second |} /\
  wait_for_token 0 (TokenBucket_init {| count := 0; interval := Second |}
                                     None 0)
  = Raise ZeroDivisionError.
Proof. split; reflexivity. Qed.

(** C5, as the code has it: for a bucket whose rate is positive,
    [next_allowed] never decreases along a sequence of [get_token] and
    [wait_for_token] calls, and an operation that grants a permit at clock
    [t] sets [next_allowed] to [t + 1/rate], which is at least [1/rate]
    above its old value. *)
Theorem next_allowed_monotone
  (b : TokenBucket) (ops : list BucketOp) (op : BucketOp) :
  0 < rate b ->
  let b1 := snd (run_ops ops b) in
  let r := fst (run_op op b1) in
  let b2 := snd (run_op op b1) in
  next_allowed b <= next_allowed b1 /\
  next_allowed b1 <= next_allowed b2 /\
  forall t, grant_time op r = Some t ->
    next_allowed b2 == t + 1 / rate b /\
    next_allowed b1 + 1 / rate b <= next_allowed b2.
Proof.
  intros P b1 r b2.
  assert (R1 : rate b1 = rate b) by apply run_ops_rate.
  assert (P1 : 0 < rate b1) by now rewrite R1.
  split; [now apply run_ops_monotone|].
  split; [now apply run_op_monotone|].
  intros t G. subst r b2. rewrite <- R1.
  pose proof (one_over_pos _ P1) as D.
  destruct (run_op_spec op b1) as [now E L| |r' L NZ G'].
  - subst op. discriminate G.
  - destruct op; discriminate G.
  - simpl in *. rewrite G' in G. injection G as <-.
    rewrite pymax_le_r by lra. lra.
Qed.

Lemma next_allowed_monotone_witness :
  let b := TokenBucket_init {| count := 2; interval := Second |} None 0 in
  let b1 := snd (run_ops [OpGet 0; OpGet (1 # 4)] b) in
  let b2 := snd (run_op (OpWait (1 # 4)) b1) in
  next_allowed b <= next_allowed b1 /\ next_allowed b1 <= next_allowed b2.
Proof.
  intros b b1 b2.
  destruct (next_allowed_monotone b [OpGet 0; OpGet (1 # 4)]
              (OpWait (1 # 4))) as [M1 [M2 _]].
  - reflexivity.
  - split; [exact M1 | exact M2].
Defined.

(** C5, refuted as stated: a permit granted ten seconds after
    [next_allowed] moves it by eleven seconds at one permit per second,
    not by [1/rate]. *)
Lemma grant_advances_by_more :
  let b := TokenBucket_init {| count := 1; interval := Second |} None 0 in
  exists b', get_token 10 b = Ok (true, b') /\
             ~ next_allowed b' == next_allowed b + 1 / rate b.
Proof.
  eexists. split; [reflexivity|]. intros H. discriminate H.
Qed.

(** C6: two buckets built from the same [RateLimit] at the same time with
    any two capacities give the same replies and the same [next_allowed]
    along every sequence of calls; and whatever the capacity, two
    consecutive permits are at least [1/ratePerSecond] apart. *)
Theorem capacity_has_no_effect
  (rl : RateLimit) (cap1 cap2 : option Z) (t0 : Q) (ops : list BucketOp) :
  let run1 := run_ops ops (TokenBucket_init rl cap1 t0) in
  let run2 := run_ops ops (TokenBucket_init rl cap2 t0) in
  fst run1 = fst run2 /\
  next_allowed (snd run1) = next_allowed (snd run2) /\
  spaced (1 / per_second rl) (grant_times ops (fst run1)).
Proof.
  intros run1 run2. subst run1 run2.
  destruct (run_ops_same_pacing ops (TokenBucket_init rl cap1 t0)
              (TokenBucket_init rl cap2 t0)) as [F [_ N]].
  { split; reflexivity. }
  split; [exact F|]. split; [exact N|].
  apply (grants_spaced ops (TokenBucket_init rl cap1 t0)).
Qed.

(** C10, as the code has it: [get_token] called before [next_allowed]
    returns [False] and leaves the bucket as it was; called at or after
    [next_allowed] on a bucket whose rate is not zero it returns [True],
    and only [next_allowed] has changed. *)
Theorem get_token_denial_is_atomic (now : Q) (b : TokenBucket) :
  (now < next_allowed b -> get_token now b = Ok (false, b)) /\
  (~ rate b == 0 -> next_allowed b <= now ->
   exists t, get_token now b = Ok (true, set_next_allowed b t)).
Proof.
  split.
  - intros L. unfold get_token. apply Qltb_lt in L. now rewrite L.
  - intros NZ G. unfold get_token. apply Qltb_ge in G. rewrite G.
    rewrite (advance_nonzero _ _ NZ). simpl. eexists. reflexivity.
Qed.

Lemma get_token_denial_is_atomic_witness :
  let b := set_next_allowed
             (TokenBucket_init {| count := 4; interval := Second |} None 0)
             (1 # 4) in
  get_token (1 # 8) b = Ok (false, b) /\
  exists t, get_token (1 # 2) b = Ok (true, set_next_allowed b t).
Proof.
  intros b.
  destruct (get_token_denial_is_atomic (1 # 8) b) as [D _].
  destruct (get_token_denial_is_atomic (1 # 2) b) as [_ G].
  split.
  - apply D. reflexivity.
  - apply G.
    + intros H. discriminate H.
    + intros H. discriminate H.
Defined.

(** C10, refuted as stated: on a bucket whose rate is zero, [get_token]
    called at [next_allowed] raises instead of returning [True]. *)
Lemma get_token_zero_rate_raises :
  let b := TokenBucket_init {| count := 0; interval := Second |} None 0 in
  (next_allowed b <= 0) /\ get_token 0 b = Raise ZeroDivisionError.
Proof. split; [intros H; discriminate H | reflexivity]. Qed.

End Limiter.

(** ** Futures of one executor *)

Section Futures.

Lemma focus_id (w : World) (eid : nat) (ex : Executor) :
  execs w !! eid = Some ex ->
  focus w eid ex (clock w) (sched w) [] = w.
Proof.
  intros H. destruct w as [c s ca e n tr]. unfold focus. simpl in *.
  rewrite insert_id by assumption. now rewrite app_nil_r.
Qed.

Lemma focus_same (w : World) (eid : nat) (ex : Executor)
  (t : Q) (s : list (list nat)) (tr : list TraceEv) :
  focus w eid ex t s (tr ++ []) = focus w eid ex t s tr.
Proof. now rewrite app_nil_r. Qed.

Lemma submit_focus (w : World) (eid : nat) (ex : Executor)
  (t : Q) (s : list (list nat)) (tr : list TraceEv) (task : Task) :
  ex_shutdown ex = false ->
  submit eid task (focus w eid ex t s tr) =
  (Ok (length (ex_futures ex)),
   focus w eid (set_futures (ex_futures ex ++ [pending task]) ex) t s
         (tr ++ [EvSubmit eid task])).
Proof.
  intros L. unfold submit, focus, log, set_execs. simpl.
  rewrite lookup_insert_eq, L. simpl.
  now rewrite insert_insert_eq, app_assoc.
Qed.

Lemma complete_focus (w : World) (eid fid : nat) (ex : Executor)
  (t : Q) (s : list (list nat)) (tr : list TraceEv) :
  complete eid fid (focus w eid ex t s tr) =
  focus w eid (set_futures (complete_at fid (ex_futures ex)) ex) t s
        (tr ++ calls_at fid (ex_futures ex)).
Proof.
  unfold complete, complete_at, calls_at. simpl. rewrite lookup_insert_eq.
  assert (E : set_futures (ex_futures ex) ex = ex) by now destruct ex.
  destruct (ex_futures ex !! fid) as [fut|] eqn:F.
  - destruct (fut_result fut) eqn:R.
    + now rewrite E, focus_same.
    + unfold focus, log, set_execs, finished. simpl.
      now rewrite insert_insert_eq, app_assoc.
  - now rewrite E, focus_same.
Qed.

Lemma complete_all_focus (fids : list nat) (w : World) (eid : nat)
  (ex : Executor) (t : Q) (s : list (list nat)) (tr : list TraceEv) :
  complete_all eid fids (focus w eid ex t s tr) =
  focus w eid (set_futures (fst (complete_list fids (ex_futures ex))) ex) t s
        (tr ++ snd (complete_list fids (ex_futures ex))).
Proof.
  revert ex tr. induction fids as [|fid fids IH]; intros ex tr; simpl.
  - assert (E : set_futures (ex_futures ex) ex = ex) by now destruct ex.
    now rewrite E, focus_same.
  - unfold complete_all in *. simpl. rewrite complete_focus, IH. simpl.
    destruct (complete_list fids (complete_at fid (ex_futures ex))).
    simpl. now rewrite app_assoc.
Qed.

Lemma future_result_focus (w : World) (eid fid : nat) (ex : Executor)
  (t : Q) (s : list (list nat)) (tr : list TraceEv) :
  future_result eid fid (focus w eid ex t s tr) =
  (match result_at fid (fst (after_result (hd [] s) fid (ex_futures ex))) with
   | Some r => r
   | None => Raise RuntimeError
   end,
   focus w eid
     (set_futures (fst (after_result (hd [] s) fid (ex_futures ex))) ex)
     t (tl s)
     (tr ++ snd (after_result (hd [] s) fid (ex_futures ex)))).
Proof.
  unfold future_result, after_result. simpl.
  change (set_sched (tl s) (focus w eid ex t s tr))
    with (focus w eid ex t (tl s) tr).
  rewrite complete_all_focus, complete_focus. simpl.
  destruct (complete_list (hd [] s) (ex_futures ex)) as [fs1 tr1]. simpl.
  unfold lookup_result, result_at. simpl. rewrite lookup_insert_eq. simpl.
  rewrite app_assoc.
  destruct (complete_at fid fs1 !! fid) as [fut|]; [|reflexivity].
  destruct (fut_result fut); reflexivity.
Qed.

Lemma complete_at_length (fid : nat) (fs : list Future) :
  length (complete_at fid fs) = length fs.
Proof.
  unfold complete_at. destruct (fs !! fid) as [fut|]; [|reflexivity].
  destruct (fut_result fut); [reflexivity|]. apply length_insert.
Qed.

Lemma complete_at_holds (fid base : nat) (tasks : list Task)
  (fs : list Future) :
  holds base tasks fs -> holds base tasks (complete_at fid fs).
Proof.
  intros H j t T. destruct (H j t T) as [fut [L [TK R]]].
  unfold complete_at. destruct (fs !! fid) as [fut0|] eqn:F.
  2:{ exists fut. repeat split; assumption. }
  destruct (fut_result fut0) eqn:R0.
  { exists fut. repeat split; assumption. }
  destruct (decide (fid = (base + j)%nat)) as [->|NE].
  - exists (finished (fut_task fut0)).
    rewrite list_lookup_insert_eq by (apply lookup_lt_Some in F; exact F).
    assert (fut0 = fut) by congruence. subst fut0.
    split; [reflexivity|]. split; [exact TK|]. right. simpl. now rewrite TK.
  - exists fut. rewrite list_lookup_insert_ne by exact NE.
    repeat split; assumption.
Qed.

Lemma complete_at_done (fid : nat) (t : Task) (fs : list Future) (fut : Future) :
  fs !! fid = Some fut -> fut_ok t fut ->
  result_at fid (complete_at fid fs) = Some (run_task t).
Proof.
  intros L [TK R]. unfold complete_at, result_at. rewrite L.
  destruct (fut_result fut) eqn:R0.
  - rewrite L, R0. destruct R as [R|R]; congruence.
  - rewrite list_lookup_insert_eq by (apply lookup_lt_Some in L; exact L).
    simpl. now rewrite TK.
Qed.

Lemma complete_at_keeps (fid fid' : nat) (fs : list Future) (r : Outcome PyVal) :
  result_at fid' fs = Some r -> result_at fid' (complete_at fid fs) = Some r.
Proof.
  unfold complete_at, result_at. intros H.
  destruct (fs !! fid) as [fut|] eqn:F; [|exact H].
  destruct (fut_result fut) eqn:R; [exact H|].
  destruct (decide (fid = fid')) as [->|NE].
  - rewrite F, R in H. discriminate H.
  - now rewrite list_lookup_insert_ne by exact NE.
Qed.

Lemma complete_list_length (fids : list nat) (fs : list Future) :
  length (fst (complete_list fids fs)) = length fs.
Proof.
  revert fs. induction fids as [|fid fids IH]; intros fs; simpl; [reflexivity|].
  specialize (IH (complete_at fid fs)).
  destruct (complete_list fids (complete_at fid fs)). simpl in *.
  now rewrite IH, complete_at_length.
Qed.

Lemma complete_list_holds (fids : list nat) (base : nat) (tasks : list Task)
  (fs : list Future) :
  holds base tasks fs -> holds base tasks (fst (complete_list fids fs)).
Proof.
  revert fs. induction fids as [|fid fids IH]; intros fs H; simpl; [exact H|].
  specialize (IH (complete_at fid fs) (complete_at_holds _ _ _ _ H)).
  now destruct (complete_list fids (complete_at fid fs)).
Qed.

Lemma complete_list_keeps (fids : list nat) (fid' : nat) (fs : list Future)
  (r : Outcome PyVal) :
  result_at fid' fs = Some r ->
  result_at fid' (fst (complete_list fids fs)) = Some r.
Proof.
  revert fs. induction fids as [|fid fids IH]; intros fs H; simpl; [exact H|].
  specialize (IH (complete_at fid fs) (complete_at_keeps _ _ _ _ H)).
  now destruct (complete_list fids (complete_at fid fs)).
Qed.

Lemma after_result_length (choice : list nat) (fid : nat) (fs : list Future) :
  length (fst (after_result choice fid fs)) = length fs.
Proof.
  unfold after_result. pose proof (complete_list_length choice fs) as L.
  destruct (complete_list choice fs). simpl in *.
  now rewrite complete_at_length.
Qed.

Lemma after_result_holds (choice : list nat) (fid base : nat)
  (tasks : list Task) (fs : list Future) :
  holds base tasks fs -> holds base tasks (fst (after_result choice fid fs)).
Proof.
  intros H. unfold after_result.
  pose proof (complete_list_holds choice _ _ _ H) as H1.
  destruct (complete_list choice fs). simpl in *.
  now apply complete_at_holds.
Qed.

Lemma after_result_keeps (choice : list nat) (fid fid' : nat)
  (fs : list Future) (r : Outcome PyVal) :
  result_at fid' fs = Some r ->
  result_at fid' (fst (after_result choice fid fs)) = Some r.
Proof.
  intros H. unfold after_result.
  pose proof (complete_list_keeps choice _ _ _ H) as H1.
  destruct (complete_list choice fs). simpl in *.
  now apply complete_at_keeps.
Qed.

(** Whatever the scheduler ran first, [future.result()] gives the result
    of the task that was submitted. *)
Lemma after_result_done (choice : list nat) (base j : nat)
  (tasks : list Task) (t : Task) (fs : list Future) :
  holds base tasks fs -> tasks !! j = Some t ->
  result_at (base + j) (fst (after_result choice (base + j) fs))
  = Some (run_task t).
Proof.
  intros H T. unfold after_result.
  pose proof (complete_list_holds choice _ _ _ H) as H1.
  destruct (complete_list choice fs) as [fs1 tr1]. simpl in *.
  destruct (H1 j t T) as [fut [L OK]].
  now apply (complete_at_done _ t _ fut).
Qed.

Lemma submit_each_focus (ts : list Task) (w : World) (eid : nat)
  (ex : Executor) (t : Q) (s : list (list nat)) (tr : list TraceEv) :
  ex_shutdown ex = false ->
  submit_each eid ts (focus w eid ex t s tr) =
  (Ok (seq (length (ex_futures ex)) (length ts)),
   focus w eid (set_futures (ex_futures ex ++ map pending ts) ex) t s
         (tr ++ map (EvSubmit eid) ts)).
Proof.
  revert ex tr. induction ts as [|task ts IH]; intros ex tr L; simpl.
  - unfold ret. rewrite !app_nil_r.
    assert (E : set_futures (ex_futures ex) ex = ex) by now destruct ex.
    now rewrite E.
  - unfold bind. rewrite (submit_focus _ _ _ _ _ _ _ L).
    rewrite IH by exact L. simpl. unfold ret.
    rewrite length_app, Nat.add_1_r. simpl.
    now rewrite <- !app_assoc.
Qed.

Lemma lookup_map {A B} (f : A -> B) (l : list A) (j : nat) :
  map f l !! j = option_map f (l !! j).
Proof.
  revert j. induction l as [|a l IH]; intros [|j]; simpl; try reflexivity.
  apply IH.
Qed.

Lemma holds_submitted (fs : list Future) (ts : list Task) :
  holds (length fs) ts (fs ++ map pending ts).
Proof.
  intros j t T. exists (pending t). split.
  - rewrite lookup_app_r by lia.
    replace (length fs + j - length fs)%nat with j by lia.
    now rewrite lookup_map, T.
  - split; [reflexivity | now left].
Qed.

Lemma warm_calls_at (n fid : nat) (fs : list Future) :
  warm n fs -> calls_at fid fs = [].
Proof.
  intros [L H]. unfold calls_at. destruct (fs !! fid) as [fut|] eqn:F;
    [|reflexivity].
  destruct (fut_result fut); [reflexivity|].
  assert (B : (fid < n)%nat) by (apply lookup_lt_Some in F; lia).
  destruct (H fid NoOp) as [fut' [L' [TK _]]].
  { now apply lookup_replicate_2. }
  simpl in L'. assert (fut' = fut) by congruence. subst fut'.
  now rewrite TK.
Qed.

Lemma warm_complete_at (n fid : nat) (fs : list Future) :
  warm n fs -> warm n (complete_at fid fs).
Proof.
  intros [L H]. split; [now rewrite complete_at_length|].
  now apply complete_at_holds.
Qed.

Lemma warm_complete_list (fids : list nat) (n : nat) (fs : list Future) :
  warm n fs ->
  warm n (fst (complete_list fids fs)) /\ snd (complete_list fids fs) = [].
Proof.
  revert fs. induction fids as [|fid fids IH]; intros fs W; simpl.
  - now split.
  - destruct (IH _ (warm_complete_at n fid fs W)) as [W1 T1].
    destruct (complete_list fids (complete_at fid fs)). simpl in *.
    split; [exact W1|]. now rewrite (warm_calls_at n fid fs W), T1.
Qed.

Lemma warm_after_result (choice : list nat) (n fid : nat) (fs : list Future) :
  warm n fs ->
  warm n (fst (after_result choice fid fs)) /\
  snd (after_result choice fid fs) = [].
Proof.
  intros W. unfold after_result.
  destruct (warm_complete_list choice n fs W) as [W1 T1].
  destruct (complete_list choice fs) as [fs1 tr1]. simpl in *.
  split; [now apply warm_complete_at|].
  now rewrite T1, (warm_calls_at n fid fs1 W1).
Qed.

Lemma result_each_warm (fids : list nat) (n : nat) (w : World) (eid : nat)
  (ex : Executor) (t : Q) (s : list (list nat)) (tr : list TraceEv) :
  warm n (ex_futures ex) ->
  Forall (fun fid => (fid < n)%nat) fids ->
  exists fs' s',
    result_each eid fids (focus w eid ex t s tr) =
    (Ok tt, focus w eid (set_futures fs' ex) t s' tr) /\
    warm n fs' /\
    (forall fid, fid ∈ fids -> result_at fid fs' = Some (Ok VNone)) /\
    (forall fid r, result_at fid (ex_futures ex) = Some r ->
                   result_at fid fs' = Some r).
Proof.
  revert ex s. induction fids as [|fid fids IH]; intros ex s W B; simpl.
  - exists (ex_futures ex), s. unfold ret.
    assert (E : set_futures (ex_futures ex) ex = ex) by now destruct ex.
    rewrite E. repeat split; try assumption; try apply W.
    + intros fid Hin. inversion Hin.
    + now intros.
  - inversion B as [|? ? Bfid Brest]; subst.
    unfold bind. rewrite future_result_focus.
    destruct (warm_after_result (hd [] s) n fid _ W) as [W1 T1].
    assert (D : result_at fid
                  (fst (after_result (hd [] s) fid (ex_futures ex)))
                = Some (run_task NoOp)).
    { destruct W as [_ H].
      apply (after_result_done (hd [] s) 0 fid (replicate n NoOp) NoOp _ H).
      now apply lookup_replicate_2. }
    rewrite D, T1, app_nil_r. simpl.
    destruct (IH (set_futures
                    (fst (after_result (hd [] s) fid (ex_futures ex))) ex)
                 (tl s) W1 Brest) as [fs' [s' [E [W2 [R2 K2]]]]].
    exists fs', s'. simpl in *. split; [exact E|]. split; [exact W2|]. split.
    + intros fid' Hin. apply elem_of_cons in Hin as [->|Hin].
      * now apply K2.
      * now apply R2.
    + intros fid' r Hr. apply K2. now apply after_result_keeps.
Qed.

Lemma warm_all_done (n : nat) (fs : list Future) :
  warm n fs ->
  (forall fid, (fid < n)%nat -> result_at fid fs = Some (Ok VNone)) ->
  fs = replicate n (finished NoOp).
Proof.
  intros [L H] D. apply list_eq. intros i.
  destruct (decide (i < n)%nat) as [B|B].
  - rewrite lookup_replicate_2 by exact B.
    destruct (H i NoOp) as [fut [F [TK _]]].
    { now apply lookup_replicate_2. }
    simpl in F. rewrite F. f_equal.
    specialize (D i B). unfold result_at in D. rewrite F in D.
    destruct fut as [tk r]. simpl in *. unfold finished. simpl.
    congruence.
  - rewrite lookup_ge_None_2 by lia.
    symmetry. apply lookup_ge_None_2. rewrite length_replicate. lia.
Qed.

End Futures.

(** ** The executor cache *)

Section Cache.

Lemma map_replicate {A B} (f : A -> B) (n : nat) (a : A) :
  map f (replicate n a) = replicate n (f a).
Proof. induction n as [|n IH]; simpl; [reflexivity | now rewrite IH]. Qed.

Lemma get_or_create_hit (k : ExecutorType) (n : Z) (p : bool) (w : World)
  (eid : nat) :
  cached_live (k, n) w = Some eid ->
  get_or_create_executor k n p w = (Ok eid, w).
Proof. intros H. unfold get_or_create_executor. now rewrite H. Qed.

Lemma get_or_create_invalid (k : ExecutorType) (n : Z) (p : bool) (w : World) :
  cached_live (k, n) w = None -> n <= 0 ->
  get_or_create_executor k n p w = (Raise ValueError, w).
Proof.
  intros H L. unfold get_or_create_executor. rewrite H.
  unfold bind, new_executor. apply Z.leb_le in L. now rewrite L.
Qed.

Lemma get_or_create_miss (k : ExecutorType) (n : Z) (p : bool) (w : World) :
  cached_live (k, n) w = None -> 0 < n ->
  exists s',
    get_or_create_executor k n p w =
    (Ok (next_id w),
     focus (created w k n) (next_id w) (fresh_executor k n p) (clock w) s'
           (warm_up_log (next_id w) n p)).
Proof.
  intros H L. unfold get_or_create_executor. rewrite H.
  unfold bind at 1. unfold new_executor.
  assert (N : (n <=? 0) = false) by now apply Z.leb_gt. rewrite N.
  unfold bind at 1. simpl.
  set (eid := next_id w).
  set (ex0 := {| ex_kind := k; ex_max_workers := n; ex_shutdown := false;
                 ex_futures := [] |}).
  assert (E : set_cache (<[(k, n) := eid]> (cache w))
                (set_next_id (S eid) (set_execs (<[eid := ex0]> (execs w)) w))
              = focus (created w k n) eid ex0 (clock w) (sched w) []).
  { unfold focus, created, set_cache, set_next_id, set_execs. simpl.
    now rewrite app_nil_r. }
  rewrite E. clear E. unfold bind at 1.
  destruct p; unfold fresh_executor, warm_up_log.
  - unfold bind at 1.
    rewrite (submit_each_focus _ _ _ ex0) by reflexivity.
    simpl ex_futures. simpl length. rewrite length_replicate.
    set (m := Z.to_nat n).
    destruct (result_each_warm (seq 0 m) m (created w k n) eid
                (set_futures ([] ++ map pending (replicate m NoOp)) ex0)
                (clock w) (sched w)
                ([] ++ map (EvSubmit eid) (replicate m NoOp)))
      as [fs' [s' [R [W [D _]]]]].
    + split.
      * simpl. now rewrite length_map, length_replicate.
      * apply (holds_submitted [] (replicate m NoOp)).
    + apply Forall_forall. intros fid Hin. apply elem_of_seq in Hin. lia.
    + assert (F : fs' = replicate m (finished NoOp)).
      { apply (warm_all_done m fs' W).
        intros fid B. apply D. apply elem_of_seq. lia. }
      rewrite R. exists s'. unfold ret. simpl.
      now rewrite !map_replicate, F.
  - exists (sched w). reflexivity.
Qed.



Lemma cached_live_iff (key : ExecutorType * Z) (e : nat) (w : World) :
  cached_live key w = Some e <-> live key e w.
Proof.
  unfold cached_live, cache_get, live. split.
  - intros H. destruct (cache w !! key) as [e'|]; [|discriminate H].
    destruct (execs w !! e') as [ex|] eqn:X; [|discriminate H].
    rewrite X in H. destruct (ex_shutdown ex) eqn:SD; [discriminate H|].
    injection H as <-. split; [reflexivity|]. exists ex. now split.
  - intros [C [ex [X SD]]]. now rewrite C, X, X, SD.
Qed.


Lemma get_cases (k : ExecutorType) (n : Z) (p : bool) (w : World) :
  (exists r, get_or_create_executor k n p w = (r, w) /\
             forall e, r = Ok e -> live (k, n) e w) \/
  (cached_live (k, n) w = None /\ 0 < n /\
   exists s',
     get_or_create_executor k n p w =
     (Ok (next_id w),
      focus (created w k n) (next_id w) (fresh_executor k n p) (clock w) s'
            (warm_up_log (next_id w) n p))).
Proof.
  destruct (cached_live (k, n) w) as [e|] eqn:H.
  - left. exists (Ok e). split; [now apply get_or_create_hit|].
    intros e' [= <-]. now apply cached_live_iff.
  - destruct (Z_lt_le_dec 0 n) as [L|L].
    + right. split; [reflexivity|]. split; [exact L|].
      now apply get_or_create_miss.
    + left. exists (Raise ValueError).
      split; [now apply get_or_create_invalid|]. discriminate.
Qed.

Lemma wf_created (k : ExecutorType) (n : Z) (p : bool) (w : World)
  (t : Q) (s : list (list nat)) (tr : list TraceEv) :
  wf_world w -> 0 < n ->
  wf_world (focus (created w k n) (next_id w) (fresh_executor k n p) t s tr).
Proof.
  intros [WE WC] L. split; simpl.
  - intros eid ex X. apply lookup_insert_Some in X as [[<- _]|[NE X]]; [lia|].
    apply WE in X. lia.
  - intros key eid C.
    apply lookup_insert_Some in C as [[<- <-]|[NE C]].
    + split; [lia|]. intros ex X. rewrite lookup_insert_eq in X.
      injection X as <-. simpl. now repeat split.
    + destruct (WC key eid C) as [B F]. split; [lia|].
      intros ex X. rewrite lookup_insert_ne in X by lia. now apply F.
Qed.

Lemma same_executor_refl (o : option Executor) : same_executor o o.
Proof. destruct o; simpl; auto. Qed.












Lemma first_call (k : ExecutorType) (n : Z) (p : bool) (w w1 : World)
  (e1 : nat) :
  wf_world w -> get_or_create_executor k n p w = (Ok e1, w1) ->
  wf_world w1 /\ live (k, n) e1 w1 /\ 0 < n.
Proof.
  intros WF G.
  destruct (get_cases k n p w) as [[r [E LV]]|[_ [L [s' E]]]];
    rewrite E in G.
  - injection G as -> <-.
    split; [exact WF|]. specialize (LV e1 eq_refl). split; [exact LV|].
    destruct LV as [C [ex [X _]]]. destruct WF as [_ WC].
    destruct (WC _ _ C) as [_ F]. now destruct (F ex X) as [_ [_ P]].
  - injection G as <- <-.
    split; [now apply wf_created|]. split; [|exact L].
    split; simpl.
    + apply lookup_insert_eq.
    + exists (fresh_executor k n p). split; [apply lookup_insert_eq|].
      reflexivity.
Qed.









End Cache.

(** ** The decorated call *)

Section Wrapper.

Lemma items_arg_index_cases (func : PyFunc) (args : list PyVal) :
  items_arg_index func args = 0%nat \/
  (items_arg_index func args = 1%nat /\ exists a0 rest, args = a0 :: rest).
Proof.
  unfold items_arg_index. destruct args as [|a0 rest]; [now left|].
  destruct (has_dot (qualname func)); [|now left].
  destruct (String.eqb _ _); [right; split; eauto|].
  destruct (is_class_named _ _); [right; split; eauto | now left].
Qed.


Lemma limiter_wait_zero (b : TokenBucket) (w : World) :
  (rate b == 0)%Q ->
  limiter_wait b w = (Raise ZeroDivisionError, log [EvWait] w).
Proof.
  intros Z. unfold limiter_wait.
  now rewrite wait_for_token_eq, (advance_zero _ _ Z).
Qed.



Lemma holds_tail (base : nat) (task : Task) (tasks : list Task)
  (fs : list Future) :
  holds base (task :: tasks) fs -> holds (S base) tasks fs.
Proof.
  intros H j t T. destruct (H (S j) t T) as [fut [L OK]].
  exists fut. split; [|exact OK].
  now replace (S base + j)%nat with (base + S j)%nat by lia.
Qed.





Lemma receiver_spec (func : PyFunc) (args : list PyVal) (w : World) :
  (if (items_arg_index func args =? 1)%nat then first_arg args else ret []) w
  = (Ok (take (items_arg_index func args) args), w).
Proof.
  destruct (items_arg_index_cases func args) as [E|[E [a0 [rest A]]]];
    rewrite E; simpl; [reflexivity|].
  now rewrite A.
Qed.








(** C2: when the item argument is not a list or a tuple (a string or
    bytes included), the decorated function calls the wrapped function
    once, on the calling thread and with the arguments as they came, and
    returns the one-element list of its result; nothing but that call is
    added to the world, so no executor is made and no task submitted. *)
Theorem single_item_is_wrapped
  (s : Settings) (func : PyFunc) (args : list PyVal) (kwargs : Kwargs)
  (x : PyVal) (w : World) :
  args !! items_arg_index func args = Some x ->
  as_sequence x = None ->
  wrapper s func args kwargs w =
  (map_outcome (fun r => VList [r]) (pf_call func args kwargs),
   log [EvCall func args kwargs] w).
Proof.
  intros A NS. unfold wrapper. rewrite A, NS.
  assert (E : (if (0 <? items_arg_index func args)%nat
               then do a0 <- first_arg args;
                    ret (a0 ++ drop (items_arg_index func args) args)
               else ret (drop (items_arg_index func args) args)) w
              = (Ok args, w)).
  { destruct (items_arg_index_cases func args) as [I|[I [a0 [rest R]]]];
      rewrite I; simpl; [reflexivity|].
    now rewrite R. }
  unfold bind at 1. rewrite E. unfold bind at 1. unfold call.
  now destruct (pf_call func args kwargs).
Qed.

Lemma single_item_is_wrapped_witness :
  wrapper paced double [VStr "ab"] [] empty_world =
  (Raise (UserError "TypeError"), log [EvCall double [VStr "ab"] []] empty_world)
  /\
  wrapper paced double [VInt 21] [] empty_world =
  (Ok (VList [VInt 42]), log [EvCall double [VInt 21] []] empty_world).
Proof.
  split.
  - apply (single_item_is_wrapped paced double [VStr "ab"] [] (VStr "ab"));
      reflexivity.
  - apply (single_item_is_wrapped paced double [VInt 21] [] (VInt 21));
      reflexivity.
Defined.






End Wrapper.

(** * Further properties *)

(** ** Waiting and bursts *)

Section Pacing.

Local Open Scope Q_scope.

Lemma wake_time_ge_now (now : Q) (b : TokenBucket) : now <= wake_time now b.
Proof.
  unfold wake_time. destruct (Qltb now (next_allowed b)) eqn:E; [|lra].
  pose proof (pymax_ge_l (1 # 1000) (next_allowed b - now)). lra.
Qed.

Lemma wake_time_le (now : Q) (b : TokenBucket) :
  now < next_allowed b -> wake_time now b <= next_allowed b + (1 # 1000).
Proof.
  intros L. unfold wake_time. apply Qltb_lt in L. rewrite L.
  unfold pymax. destruct (Qltb (1 # 1000) (next_allowed b - now)) eqn:E.
  - lra.
  - apply Qltb_lt in L. lra.
Qed.

Lemma wake_time_now (now : Q) (b : TokenBucket) :
  next_allowed b <= now -> wake_time now b = now.
Proof. intros G. unfold wake_time. apply Qltb_ge in G. now rewrite G. Qed.

Lemma wait_for_token_granted (now : Q) (b : TokenBucket) :
  ~ rate b == 0 ->
  wait_for_token now b = Ok (wake_time now b, granted (wake_time now b) b).
Proof.
  intros NZ. now rewrite wait_for_token_eq, (advance_nonzero _ _ NZ).
Qed.

(** X1: [wait_for_token] on a bucket whose rate is not zero always returns with
    a permit.  It returns at once when [next_allowed] has passed; otherwise
    it returns no earlier than [next_allowed] and at most a millisecond
    after it; and it leaves [next_allowed] one interval after the clock
    at which it returns. *)
Theorem wait_for_token_returns (now : Q) (b : TokenBucket) :
  ~ rate b == 0 ->
  exists t b',
    wait_for_token now b = Ok (t, b') /\
    now <= t /\ next_allowed b <= t /\
    (next_allowed b <= now -> t = now) /\
    (now < next_allowed b -> t <= next_allowed b + (1 # 1000)) /\
    next_allowed b' == t + 1 / rate b /\
    rate b' = rate b.
Proof.
  intros NZ. exists (wake_time now b), (granted (wake_time now b) b).
  split; [now apply wait_for_token_granted|].
  split; [apply wake_time_ge_now|].
  split; [apply wake_time_reached|].
  split; [apply wake_time_now|].
  split; [apply wake_time_le|].
  split; [|reflexivity].
  simpl. apply pymax_le_r. pose proof (wake_time_reached now b). lra.
Qed.

Lemma wait_for_token_returns_witness :
  let b := set_next_allowed
             (TokenBucket_init {| count := 4; interval := Second |} None 0)
             (1 # 2) in
  exists t b',
    wait_for_token (1 # 4) b = Ok (t, b') /\
    (1 # 4) <= t /\ next_allowed b <= t /\
    t <= next_allowed b + (1 # 1000) /\
    next_allowed b' == t + 1 / rate b.
Proof.
  intros b.
  destruct (wait_for_token_returns (1 # 4) b) as [t [b' [E [A [B [_ [C [D _]]]]]]]].
  - intros H. discriminate H.
  - exists t, b'. repeat split; try assumption. apply C. reflexivity.
Defined.








End Pacing.

(** ** The run of a batch call *)

Section BatchRun.

Lemma limiter_wait_exact (b : TokenBucket) (w : World) (eid : nat)
  (ex : Executor) (t : Q) (s : list (list nat)) (tr : list TraceEv) :
  ~ (rate b == 0)%Q ->
  limiter_wait b (focus w eid ex t s tr) =
  (Ok (granted (wake_time t b) b),
   focus w eid ex (wake_time t b) s (tr ++ [EvWait])).
Proof.
  intros NZ. unfold limiter_wait. simpl clock.
  rewrite (wait_for_token_granted _ _ NZ).
  unfold focus, set_clock, log. simpl. now rewrite <- app_assoc.
Qed.

Lemma pace_none (n : nat) (t : Q) : pace None n t = t.
Proof. now destruct n. Qed.

Lemma submit_items_exact (func : PyFunc) (receiver other_args : list PyVal)
  (kwargs : Kwargs) (items : list PyVal) (lim : option TokenBucket)
  (i : nat) (w : World) (eid : nat) (ex : Executor) (t : Q)
  (s : list (list nat)) (tr : list TraceEv) :
  ex_shutdown ex = false -> limiter_ok lim ->
  submit_items func receiver other_args kwargs eid lim i items
               (focus w eid ex t s tr) =
  (Ok (indexed i (length (ex_futures ex)) (length items)),
   focus w eid
     (set_futures
        (ex_futures ex ++
           map pending (item_tasks func receiver other_args kwargs items)) ex)
     (pace lim (length items) t) s
     (tr ++ submit_log func receiver other_args kwargs eid (is_limited lim)
                       items)).
Proof.
  revert lim i ex t tr.
  induction items as [|item items IH]; intros lim i ex t tr L LO.
  - simpl. unfold ret. rewrite !app_nil_r.
    assert (E : set_futures (ex_futures ex) ex = ex) by now destruct ex.
    rewrite E. now destruct lim.
  - cbn [submit_items]. unfold bind at 1.
    destruct lim as [b|].
    + simpl in LO. unfold bind at 1.
      rewrite (limiter_wait_exact b w eid ex t s tr LO). unfold ret.
      unfold bind at 1. rewrite (submit_focus _ _ _ _ _ _ _ L).
      unfold bind at 1.
      rewrite (IH (Some (granted (wake_time t b) b)) (S i)) by assumption.
      unfold ret. simpl.
      rewrite length_app, Nat.add_1_r. simpl.
      rewrite <- !app_assoc. reflexivity.
    + unfold ret at 1. unfold bind at 1.
      rewrite (submit_focus _ _ _ _ _ _ _ L). unfold bind at 1.
      rewrite (IH None (S i)) by assumption.
      unfold ret. simpl. rewrite pace_none.
      rewrite length_app, Nat.add_1_r. simpl.
      rewrite <- !app_assoc. reflexivity.
Qed.

Lemma collect_results_world (tasks : list Task) (base i idx : nat)
  (done : list PyVal) (w : World) (eid : nat) (ex : Executor) (t : Q)
  (s : list (list nat)) (tr : list TraceEv) :
  holds base tasks (ex_futures ex) -> length done = i ->
  snd (collect_results eid idx (indexed i base (length tasks))
         (done ++ replicate (length tasks) VNone)
         (focus w eid ex t s tr)) =
  let '(fs', s', tr') :=
    collect_table s (seq base (length tasks)) (ex_futures ex) in
  focus w eid (set_futures fs' ex) t s' (tr ++ tr').
Proof.
  revert base i idx done ex s tr.
  induction tasks as [|task tasks IH]; intros base i idx done ex s tr H LD.
  - simpl. rewrite app_nil_r.
    assert (E : set_futures (ex_futures ex) ex = ex) by now destruct ex.
    now rewrite E.
  - cbn [length indexed seq collect_results collect_table replicate].
    unfold bind at 1. unfold try_except at 1. rewrite future_result_focus.
    assert (D : result_at base
                  (fst (after_result (hd [] s) base (ex_futures ex)))
                = Some (run_task task)).
    { pose proof (after_result_done (hd [] s) base 0 (task :: tasks) task
                    (ex_futures ex) H eq_refl) as D.
      now rewrite Nat.add_0_r in D. }
    rewrite D. destruct (run_task task) as [v|e]; [|reflexivity].
    cbn [except_handler]. unfold bind at 1. unfold try_except, store_result.
    assert (B : (i <? length (done ++ VNone :: replicate (length tasks) VNone))%nat
                = true).
    { apply Nat.ltb_lt. rewrite length_app. simpl. lia. }
    rewrite B. unfold ret.
    assert (I : <[i := v]> (done ++ VNone :: replicate (length tasks) VNone)
                = (done ++ [v]) ++ replicate (length tasks) VNone).
    { rewrite insert_app_r_alt by lia.
      replace (i - length done)%nat with 0%nat by lia. simpl.
      now rewrite <- app_assoc. }
    rewrite I.
    rewrite (IH (S base) (S i) (S idx) (done ++ [v])
               (set_futures
                  (fst (after_result (hd [] s) base (ex_futures ex))) ex)
               (tl s)
               (tr ++ snd (after_result (hd [] s) base (ex_futures ex)))).
    + simpl ex_futures.
      destruct (collect_table (tl s) (seq (S base) (length tasks))
                  (fst (after_result (hd [] s) base (ex_futures ex))))
        as [[fs2 s2] tr2].
      now rewrite app_assoc.
    + simpl. apply after_result_holds. now apply (holds_tail base task).
    + rewrite length_app. simpl. lia.
Qed.

Lemma make_limiter_exact (rl : option RateLimitArg) (w : World) :
  make_limiter rl w = (Ok (new_limiter rl (clock w)), w).
Proof. destruct rl as [[c|c i|r]|]; reflexivity. Qed.

Lemma new_limiter_ok (rl : option RateLimitArg) (t : Q) :
  limiter_fails rl = false -> limiter_ok (new_limiter rl t).
Proof.
  unfold limiter_fails, limiter_rate, limiter_ok, new_limiter.
  destruct rl as [[c|c i|r]|]; simpl; intros F; try exact I;
    intros Z; apply Qeq_bool_iff in Z; congruence.
Qed.

Lemma wrapper_batch_run
  (s : Settings) (func : PyFunc) (args : list PyVal) (kwargs : Kwargs)
  (items : list PyVal) (w w0 : World) (eid : nat) (ex : Executor) :
  batch_items func args = Some items ->
  get_or_create_executor (exec_type s) (workers s) (prewarm s) w
  = (Ok eid, w0) ->
  execs w0 !! eid = Some ex -> ex_shutdown ex = false ->
  limiter_fails (rate_limit s) = false ->
  snd (wrapper s func args kwargs w)
  = batch_world s func args kwargs items w0 eid ex.
Proof.
  intros B G X SD LF. unfold wrapper. unfold batch_items in B. rewrite B.
  unfold bind at 1. rewrite G. unfold bind at 1.
  rewrite make_limiter_exact. unfold bind at 1. rewrite receiver_spec.
  unfold batch_world.
  set (receiver := take (items_arg_index func args) args).
  set (other_args := drop (S (items_arg_index func args)) args).
  set (lim := new_limiter (rate_limit s) (clock w0)).
  rewrite <- (focus_id w0 eid ex X) at 1.
  unfold bind at 1. unfold try_except.
  rewrite (submit_items_exact func receiver other_args kwargs items lim 0
             w0 eid ex (clock w0) (sched w0) [] SD
             (new_limiter_ok _ _ LF)).
  set (tasks := item_tasks func receiver other_args kwargs items).
  assert (LT : length items = length tasks)
    by (unfold tasks, item_tasks; now rewrite length_map).
  pose proof (collect_results_world tasks (length (ex_futures ex)) 0 0 []
                w0 eid
                (set_futures (ex_futures ex ++ map pending tasks) ex)
                (pace lim (length items) (clock w0)) (sched w0)
                ([] ++ submit_log func receiver other_args kwargs eid
                         (is_limited lim) items)
                (holds_submitted _ _) eq_refl) as C.
  simpl app in C. simpl ex_futures in C. rewrite <- LT in C.
  unfold bind at 1.
  destruct (collect_results eid 0
              (indexed 0 (length (ex_futures ex)) (length items))
              (replicate (length items) VNone) _) as [o w'] eqn:E.
  simpl in C. subst w'.
  destruct (collect_table (sched w0)
              (seq (length (ex_futures ex)) (length items))
              (ex_futures ex ++ map pending tasks)) as [[fs' s'] tr'].
  now destruct o.
Qed.

Lemma acquire_ok (s : Settings) (w : World) :
  0 < workers s ->
  exists eid w0 ex,
    get_or_create_executor (exec_type s) (workers s) (prewarm s) w
    = (Ok eid, w0) /\
    cache w0 !! (exec_type s, workers s) = Some eid /\
    execs w0 !! eid = Some ex /\ ex_shutdown ex = false /\
    clock w0 = clock w.
Proof.
  intros P.
  destruct (cached_live (exec_type s, workers s) w) as [e|] eqn:H.
  - pose proof H as LV. apply cached_live_iff in LV.
    destruct LV as [C [ex [X SD]]].
    exists e, w, ex. split; [now apply get_or_create_hit|]. now repeat split.
  - destruct (get_or_create_miss _ _ (prewarm s) w H P) as [s' E].
    eexists. eexists.
    exists (fresh_executor (exec_type s) (workers s) (prewarm s)).
    split; [exact E|]. simpl.
    rewrite !lookup_insert_eq. now repeat split.
Qed.

Lemma new_limiter_rate (rl : option RateLimitArg) (t r : Q) :
  limiter_rate rl = Some r ->
  exists b, new_limiter rl t = Some b /\ rate b = r /\ next_allowed b = t.
Proof.
  unfold limiter_rate, new_limiter.
  destruct rl as [[c|c i|rl]|]; intros [= <-]; eexists;
    (split; [reflexivity|]); split; reflexivity.
Qed.

Lemma batch_world_clock
  (s : Settings) (func : PyFunc) (args : list PyVal) (kwargs : Kwargs)
  (items : list PyVal) (w0 : World) (eid : nat) (ex : Executor) :
  clock (batch_world s func args kwargs items w0 eid ex)
  = pace (new_limiter (rate_limit s) (clock w0)) (length items) (clock w0).
Proof.
  unfold batch_world. now destruct (collect_table _ _ _) as [[fs' s'] tr'].
Qed.



(** X4: Every batch call builds its own limiter, and a new limiter grants its
    first permit at once: a batch call over at most one item never waits,
    so separate calls are not paced against each other. *)
Theorem one_item_never_waits
  (s : Settings) (func : PyFunc) (args : list PyVal) (kwargs : Kwargs)
  (items : list PyVal) (w : World) :
  batch_items func args = Some items ->
  (length items <= 1)%nat ->
  0 < workers s ->
  limiter_fails (rate_limit s) = false ->
  clock (snd (wrapper s func args kwargs w)) = clock w.
Proof.
  intros B L1 P LF.
  destruct (acquire_ok s w P) as [eid [w0 [ex [G [_ [X [SD CK]]]]]]].
  rewrite (wrapper_batch_run s func args kwargs items w w0 eid ex B G X SD LF).
  rewrite batch_world_clock, CK.
  destruct items as [|x [|y rest]]; [reflexivity| |simpl in L1; lia].
  simpl length. unfold new_limiter.
  destruct (rate_limit s) as [[c|c i|rl]|]; try reflexivity;
    cbn [pace]; apply wake_time_now; simpl; apply Qle_refl.
Qed.

Lemma one_item_never_waits_witness :
  clock (snd (wrapper paced double [VList [VInt 1]] []
                      (set_clock 9 empty_world))) = 9%Q.
Proof.
  apply (one_item_never_waits paced double [VList [VInt 1]] [] [VInt 1]
           (set_clock 9 empty_world) eq_refl).
  - simpl. lia.
  - reflexivity.
  - reflexivity.
Defined.

































Lemma same_pools_log (tr : list TraceEv) (w : World) :
  same_pools w (log tr w).
Proof. repeat split. intros e. apply same_executor_refl. Qed.












End BatchRun.


Section FailedBatch.

(** X9: A limiter of rate zero stops a batch call over at least one item
    before any work is done: once the executor is there, the call raises
    at the first wait; nothing is submitted, the wrapped function is never
    called and the clock does not move.  What the caller sees is not the
    [ZeroDivisionError] of the limiter but an [UnboundLocalError]: the
    handler formats [idx], which only the second loop binds. *)
Theorem zero_rate_batch_does_no_work
  (s : Settings) (func : PyFunc) (args : list PyVal) (kwargs : Kwargs)
  (item : PyVal) (items : list PyVal) (w w0 : World) (eid : nat) :
  batch_items func args = Some (item :: items) ->
  limiter_fails (rate_limit s) = true ->
  get_or_create_executor (exec_type s) (workers s) (prewarm s) w
  = (Ok eid, w0) ->
  wrapper s func args kwargs w = (Raise UnboundLocalError, log [EvWait] w0).
Proof.
  intros B LF G. unfold wrapper. unfold batch_items in B. rewrite B.
  unfold bind at 1. rewrite G. unfold bind at 1.
  rewrite make_limiter_exact. unfold bind at 1. rewrite receiver_spec.
  unfold limiter_fails in LF.
  destruct (limiter_rate (rate_limit s)) as [r|] eqn:R; [|discriminate LF].
  apply Qeq_bool_iff in LF.
  destruct (new_limiter_rate _ (clock w0) r R) as [b [NL [RB _]]].
  rewrite NL. unfold bind at 1. unfold try_except. cbn [submit_items].
  unfold bind at 1. unfold bind at 1.
  rewrite (limiter_wait_zero b w0) by now rewrite RB.
  reflexivity.
Qed.

Lemma zero_rate_batch_does_no_work_witness :
  let s := parallel (Some 4) None (Some (RlNumber 0)) None false
                    default_config in
  let got := get_or_create_executor (exec_type s) (workers s) (prewarm s)
                                    empty_world in
  wrapper s double [VList [VInt 1; VInt 2]] [] empty_world
  = (Raise UnboundLocalError, log [EvWait] (snd got)).
Proof.
  intros s got.
  apply (zero_rate_batch_does_no_work s double [VList [VInt 1; VInt 2]] []
           (VInt 1) [VInt 2] empty_world (snd got) 0%nat).
  - reflexivity.
  - reflexivity.
  - vm_compute. reflexivity.
Defined.

End FailedBatch.


Section PoolIdentity.

(** X10: The executor a call gets fits the request: it is alive, of the kind
    asked for and has the number of workers asked for; and a later request
    for another kind or another number of workers never gets the same
    executor. *)
Theorem pools_fit_their_settings
  (k : ExecutorType) (n : Z) (p : bool) (w w' : World) (e : nat) :
  wf_world w ->
  get_or_create_executor k n p w = (Ok e, w') ->
  (exists ex, execs w' !! e = Some ex /\
              ex_kind ex = k /\ ex_max_workers ex = n /\
              ex_shutdown ex = false) /\
  forall k2 n2 p2 e2 w2,
    (k2, n2) <> (k, n) ->
    get_or_create_executor k2 n2 p2 w' = (Ok e2, w2) -> e2 <> e.
Proof.
  intros WF G.
  destruct (first_call k n p w w' e WF G) as [WF' [[C [ex [X SD]]] P]].
  pose proof WF' as [WE WC].
  destruct (WC _ _ C) as [B F]. destruct (F ex X) as [K [MW _]].
  simpl in K, MW. split; [now exists ex|].
  intros k2 n2 p2 e2 w2 NE G2.
  destruct (get_cases k2 n2 p2 w') as [[r [E LV]]|[_ [_ [s' E]]]];
    rewrite E in G2.
  - injection G2 as -> <-.
    destruct (LV e2 eq_refl) as [C2 _]. intros ->.
    destruct (WC _ _ C2) as [_ F2]. destruct (F2 ex X) as [K2 [MW2 _]].
    simpl in K2, MW2. apply NE. congruence.
  - injection G2 as <- _. lia.
Qed.

Lemma pools_fit_their_settings_witness :
  let w' := snd (get_or_create_executor Thread 2 false empty_world) in
  (exists ex, execs w' !! 0%nat = Some ex /\
              ex_kind ex = Thread /\ ex_max_workers ex = 2 /\
              ex_shutdown ex = false) /\
  1%nat <> 0%nat.
Proof.
  intros w'.
  assert (WF : wf_world empty_world).
  { split; intros ? ? H; simpl in H; rewrite lookup_empty in H;
      discriminate H. }
  destruct (pools_fit_their_settings Thread 2 false empty_world w' 0 WF
              eq_refl) as [A B].
  split; [exact A|].
  apply (B Process 2 false 1%nat
           (snd (get_or_create_executor Process 2 false w'))).
  - discriminate.
  - vm_compute. reflexivity.
Defined.

End PoolIdentity.

(** * Configuration *)

Section Dicts.

Import config.

Lemma dict_get_set_eq (k : string) (v : CfgVal) (d : Dict) :
  dict_get k (dict_set k v d) = Some v.
Proof.
  induction d as [|[k' v'] d IH]; simpl.
  - now rewrite String.eqb_refl.
  - destruct (String.eqb k k') eqn:E; simpl; rewrite E; [reflexivity|exact IH].
Qed.

Lemma dict_get_set_ne (k k' : string) (v : CfgVal) (d : Dict) :
  k <> k' -> dict_get k (dict_set k' v d) = dict_get k d.
Proof.
  intros NE. induction d as [|[k0 v0] d IH]; simpl.
  - apply String.eqb_neq in NE. now rewrite NE.
  - destruct (String.eqb k' k0) eqn:E; simpl.
    + apply String.eqb_eq in E. subst k0.
      apply String.eqb_neq in NE. now rewrite NE.
    + now rewrite IH.
Qed.

Lemma dict_get_none (k : string) (d : Dict) :
  dict_get k d = None <-> ~ In k (dict_keys d).
Proof.
  induction d as [|[k' v'] d IH]; simpl; [tauto|].
  destruct (String.eqb k k') eqn:E.
  - apply String.eqb_eq in E. subst. split; [discriminate | tauto].
  - apply String.eqb_neq in E. rewrite IH. split; [|tauto].
    intros N [H|H]; [congruence | tauto].
Qed.

Lemma dict_keys_set (k : string) (v : CfgVal) (d : Dict) :
  dict_keys (dict_set k v d)
  = if existsb (String.eqb k) (dict_keys d) then dict_keys d
    else dict_keys d ++ [k].
Proof.
  induction d as [|[k' v'] d IH]; simpl; [reflexivity|].
  destruct (String.eqb k k') eqn:E; simpl; [reflexivity|].
  rewrite IH. now destruct (existsb (String.eqb k) (dict_keys d)).
Qed.

Lemma existsb_eqb_in (k : string) (l : list string) :
  existsb (String.eqb k) l = true <-> In k l.
Proof.
  rewrite existsb_exists. split.
  - intros [x [I E]]. apply String.eqb_eq in E. now subst.
  - intros I. exists k. split; [exact I | apply String.eqb_refl].
Qed.

Lemma dict_wf_set (k : string) (v : CfgVal) (d : Dict) :
  dict_wf d -> dict_wf (dict_set k v d).
Proof.
  unfold dict_wf. intros W. rewrite dict_keys_set.
  destruct (existsb (String.eqb k) (dict_keys d)) eqn:E; [exact W|].
  apply NoDup_app. split; [exact W|]. split.
  - intros x I1 I2. apply list_elem_of_In in I1, I2.
    destruct I2 as [<-|[]].
    apply existsb_eqb_in in I1. congruence.
  - repeat constructor. intros H. inversion H.
Qed.

Lemma dict_in_set (k k' : string) (v : CfgVal) (d : Dict) :
  In k (dict_keys (dict_set k' v d)) <-> k = k' \/ In k (dict_keys d).
Proof.
  rewrite dict_keys_set.
  destruct (existsb (String.eqb k') (dict_keys d)) eqn:E.
  - apply existsb_eqb_in in E. split; [tauto|]. intros [->|H]; assumption.
  - rewrite in_app_iff. simpl. split; [intros [H|[H|[]]]; auto | ].
    intros [H|H]; auto.
Qed.

Lemma dict_wf_update (d u : Dict) : dict_wf d -> dict_wf (dict_update d u).
Proof.
  unfold dict_update. revert d.
  induction u as [|[k v] u IH]; intros d W; simpl; [exact W|].
  apply IH. now apply dict_wf_set.
Qed.

Lemma dict_keys_del (k k' : string) (d : Dict) :
  In k (dict_keys (dict_del k' d)) -> In k (dict_keys d).
Proof.
  induction d as [|[k0 v0] d IH]; simpl; [tauto|].
  destruct (String.eqb k' k0); simpl; [tauto|]. intros [H|H]; auto.
Qed.

Lemma dict_wf_del (k : string) (d : Dict) : dict_wf d -> dict_wf (dict_del k d).
Proof.
  unfold dict_wf.
  induction d as [|[k0 v0] d IH]; simpl; intros W; [exact W|].
  apply NoDup_cons in W as [N W].
  destruct (String.eqb k k0); [exact W|]. simpl. apply NoDup_cons.
  split; [|now apply IH].
  intros H. apply N. apply list_elem_of_In. apply list_elem_of_In in H.
  now apply (dict_keys_del k0 k).
Qed.

Lemma dict_get_del_eq (k : string) (d : Dict) :
  dict_wf d -> dict_get k (dict_del k d) = None.
Proof.
  unfold dict_wf.
  induction d as [|[k0 v0] d IH]; simpl; intros W; [reflexivity|].
  apply NoDup_cons in W as [N W].
  destruct (String.eqb k k0) eqn:E; simpl.
  - apply String.eqb_eq in E. subst k0. apply dict_get_none.
    intros H. apply N. now apply list_elem_of_In.
  - rewrite E. now apply IH.
Qed.

Lemma dict_get_del_ne (k k' : string) (d : Dict) :
  k <> k' -> dict_get k (dict_del k' d) = dict_get k d.
Proof.
  intros NE. induction d as [|[k0 v0] d IH]; simpl; [reflexivity|].
  destruct (String.eqb k' k0) eqn:E; simpl.
  - apply String.eqb_eq in E. subst k0.
    apply String.eqb_neq in NE. now rewrite NE.
  - now rewrite IH.
Qed.

Lemma dict_set_fresh (k : string) (v : CfgVal) (d : Dict) :
  ~ In k (dict_keys d) -> dict_set k v d = d ++ [(k, v)].
Proof.
  induction d as [|[k' v'] d IH]; simpl; intros N; [reflexivity|].
  destruct (String.eqb k k') eqn:E.
  - apply String.eqb_eq in E. subst. tauto.
  - rewrite IH by tauto. reflexivity.
Qed.

Lemma dict_update_fresh (d u : Dict) :
  dict_wf u ->
  (forall k, In k (dict_keys u) -> ~ In k (dict_keys d)) ->
  dict_update d u = d ++ u.
Proof.
  unfold dict_update, dict_wf. revert d.
  induction u as [|[k v] u IH]; intros d W F; simpl.
  - now rewrite app_nil_r.
  - simpl in W. apply NoDup_cons in W as [N W].
    rewrite dict_set_fresh by (apply F; now left).
    rewrite IH; [now rewrite <- app_assoc | exact W |].
    intros k' K. unfold dict_keys. rewrite map_app, in_app_iff. simpl.
    intros [H|[H|[]]].
    + now apply (F k'); [right|].
    + subst k'. apply N. now apply list_elem_of_In.
Qed.

Lemma merge_value_dicts (base updates : Dict) :
  merge_value (Some (CDict base)) (CDict updates)
  = CDict (deep_merge base updates).
Proof.
  unfold deep_merge. simpl. f_equal. revert base.
  induction updates as [|[k v] updates IH]; intros base; simpl; [reflexivity|].
  apply IH.
Qed.

Lemma deep_merge_get (base updates : Dict) (k : string) :
  dict_wf updates ->
  dict_get k (deep_merge base updates) =
  match dict_get k updates with
  | None => dict_get k base
  | Some v =>
      Some match dict_get k base, v with
           | Some (CDict b), CDict u => CDict (deep_merge b u)
           | _, _ => v
           end
  end.
Proof.
  assert (M : forall old v,
             merge_value old v
             = match old, v with
               | Some (CDict b), CDict u => CDict (deep_merge b u)
               | _, _ => v
               end).
  { intros old v. destruct old as [[| | | | |b]|], v as [| | | | |u];
      try reflexivity. apply merge_value_dicts. }
  unfold deep_merge. revert base.
  induction updates as [|[k0 v0] updates IH]; intros base W; simpl;
    [reflexivity|].
  unfold dict_wf in W. simpl in W. apply NoDup_cons in W as [N W].
  rewrite (IH _ W).
  destruct (String.eqb k k0) eqn:E.
  - apply String.eqb_eq in E. subst k0.
    assert (G : dict_get k updates = None).
    { apply dict_get_none. intros H. apply N. now apply list_elem_of_In. }
    rewrite G, dict_get_set_eq. now rewrite M.
  - apply String.eqb_neq in E. rewrite (dict_get_set_ne _ _ _ _ E).
    reflexivity.
Qed.

(** X11: [_deep_merge] key by key: a key the updates do not have keeps the
    value of the base; a key they have takes the value of the updates,
    unless both values are dicts, which are merged in the same way; so a
    partial update of a nested dict keeps the neighbours of what it
    changes. *)
Theorem deep_merge_lookup (base updates : Dict) (k : string) :
  dict_wf updates ->
  dict_get k (deep_merge base updates) =
  match dict_get k updates with
  | None => dict_get k base
  | Some v =>
      Some match dict_get k base, v with
           | Some (CDict b), CDict u => CDict (deep_merge b u)
           | _, _ => v
           end
  end.
Proof. exact (deep_merge_get base updates k). Qed.

Lemma deep_merge_lookup_witness :
  let base := [("a"%string, CDict [("x"%string, CInt 0);
                                   ("y"%string, CInt 2)]);
               ("b"%string, CInt 5)] in
  let updates := [("a"%string, CDict [("x"%string, CInt 1)])] in
  dict_get "a" (deep_merge base updates)
  = Some (CDict [("x"%string, CInt 1); ("y"%string, CInt 2)]) /\
  dict_get "b" (deep_merge base updates) = Some (CInt 5).
Proof.
  intros base updates.
  assert (W : dict_wf updates) by (repeat constructor; intros H; inversion H).
  split.
  - rewrite (deep_merge_lookup base updates "a" W). reflexivity.
  - rewrite (deep_merge_lookup base updates "b" W). reflexivity.
Defined.

End Dicts.

Section ExecutionSettings.

Import config.

Variable int_of_str : string -> option Z.
Variable float_of_str : string -> option Q.

Lemma ensure_min_int_ge (v : CfgVal) (m z : Z) :
  ensure_min_int int_of_str v m = Ok z -> m <= z.
Proof.
  unfold ensure_min_int. destruct (py_int int_of_str v); [|discriminate].
  intros [= <-]. lia.
Qed.

Lemma ensure_min_int_int (z m : Z) :
  m <= z -> ensure_min_int int_of_str (CInt z) m = Ok z.
Proof. intros L. unfold ensure_min_int. simpl. f_equal. lia. Qed.


Lemma ensure_float_float (q : Q) :
  (0 <= q)%Q -> ensure_non_negative_float float_of_str (CFloat q) = Ok q.
Proof.
  intros L. unfold ensure_non_negative_float. simpl.
  apply Qltb_ge in L. now rewrite L.
Qed.




End ExecutionSettings.

Section ExecutionSettingsExamples.

Import config.


End ExecutionSettingsExamples.

Section RoundTrip.

Import config.

Variable int_of_str : string -> option Z.
Variable float_of_str : string -> option Q.

Lemma unknown_items_all (known : list string) (d : Dict) :
  (forall k, In k (dict_keys d) -> is_known known k = false) ->
  unknown_items known d = d.
Proof.
  unfold unknown_items.
  induction d as [|[k v] d IH]; intros F; simpl; [reflexivity|].
  rewrite (F k) by now left. simpl. f_equal. apply IH.
  intros k' K. apply F. now right.
Qed.

Lemma ExecutionConfig_model_dump_eq (c : ExecutionConfig) :
  clean_extra execution_known_keys (ec_extra c) ->
  ExecutionConfig_model_dump c =
  [("max_workers"%string, CInt (ec_max_workers c));
   ("timeout"%string, CFloat (ec_timeout c));
   ("default_max_workers"%string, CInt (ec_default_max_workers c));
   ("default_executor_type"%string, ec_default_executor_type c);
   ("default_batch_size"%string, CInt (ec_default_batch_size c))]
  ++ ec_extra c.
Proof.
  intros [W F]. unfold ExecutionConfig_model_dump.
  destruct (ec_extra c) as [|kv extra] eqn:X; [reflexivity|].
  cbn [is_nil]. rewrite dict_update_fresh; [reflexivity | exact W |].
  intros k K. destruct (F k K) as [NK NE]. simpl.
  unfold is_known, execution_known_keys in NK. simpl in NK.
  repeat (apply orb_false_iff in NK as [?E NK]).
  repeat match goal with
         | H : String.eqb _ _ = false |- _ => apply String.eqb_neq in H
         end.
  intros [H|[H|[H|[H|[H|[H|[]]]]]]]; congruence.
Qed.

Lemma execution_round_trip (c : ExecutionConfig) :
  valid_execution c ->
  clean_extra execution_known_keys (ec_extra c) ->
  ExecutionConfig_from_dict int_of_str float_of_str
    (ExecutionConfig_model_dump c) = Ok c.
Proof.
  intros [V1 [V2 [V3 V4]]] CL.
  rewrite (ExecutionConfig_model_dump_eq c CL).
  unfold ExecutionConfig_from_dict, dict_get_default. cbn [app dict_get].
  simpl String.eqb. cbv iota.
  unfold ExecutionConfig_init.
  rewrite !ensure_min_int_int by assumption.
  rewrite ensure_float_float by assumption.
  unfold set_ec_extra. simpl.
  destruct CL as [_ F].
  rewrite unknown_items_all; [now destruct c|].
  intros k K. now destruct (F k K).
Qed.

(** X13: An [ExecutionConfig] survives the trip through a dict: [from_dict]
    of [model_dump] gives the configuration back, when its numbers are in
    range and none of its extra items bears the name of a field or the
    name ["extra"]. *)
Theorem execution_config_round_trip (c : ExecutionConfig) :
  valid_execution c ->
  clean_extra execution_known_keys (ec_extra c) ->
  ExecutionConfig_from_dict int_of_str float_of_str
    (ExecutionConfig_model_dump c) = Ok c.
Proof. exact (execution_round_trip c). Qed.

End RoundTrip.

Section RoundTripExamples.

Import config.

Lemma execution_config_round_trip_witness :
  let c := {| ec_max_workers := 8; ec_timeout := 5 # 2;
              ec_default_max_workers := 2;
              ec_default_executor_type := CStr "process";
              ec_default_batch_size := 50;
              ec_extra := [("colour"%string, CStr "red")] |} in
  ExecutionConfig_from_dict (fun _ => None) (fun _ => None)
    (ExecutionConfig_model_dump c) = Ok c.
Proof.
  intros c.
  apply (execution_config_round_trip (fun _ => None) (fun _ => None) c).
  - unfold valid_execution. simpl. repeat split; try lia. discriminate.
  - split.
    + repeat constructor. intros H. inversion H.
    + intros k [<-|[]]. split; [reflexivity | discriminate].
Defined.

End RoundTripExamples.

Section Alignment.

Import config.

Variable int_of_str : string -> option Z.
Variable float_of_str : string -> option Q.

Lemma align_execution_config (mw : Z) (t : Q) (c : ExecutionConfig)
  (mw' : Z) (t' : Q) (f : ExecutionField) :
  align_execution int_of_str float_of_str mw t (EfConfig c) = Ok (mw', t', f) ->
  mw' = mw /\ (t' == t)%Q /\
  exists c', f = EfConfig c' /\
             ec_max_workers c' = mw' /\ ec_timeout c' = t' /\
             same_defaults c c'.
Proof.
  unfold align_execution, ensure_min_int, ensure_non_negative_float.
  simpl py_int. simpl py_float. cbv iota.
  destruct (Qltb (ec_timeout c) 0); [discriminate|].
  cbn [ec_max_workers ec_timeout set_ec_max_workers set_ec_timeout].
  destruct (Z.eqb mw (Z.max (ec_max_workers c) 1)) eqn:EM;
    cbn [negb]; cbv beta iota zeta;
    cbn [ec_max_workers ec_timeout set_ec_max_workers set_ec_timeout];
    destruct (Qeq_bool t (ec_timeout c)) eqn:ET;
    cbn [negb]; cbv beta iota zeta;
    intros [= <- <- <-];
    try (apply Z.eqb_eq in EM); try (apply Qeq_bool_iff in ET);
    (split; [congruence|]); (split; [try reflexivity; now symmetry|]);
    eexists; (split; [reflexivity|]);
    unfold same_defaults; simpl; now repeat split.
Qed.

Lemma align_execution_value (mw : Z) (t : Q) (v : CfgVal)
  (mw' : Z) (t' : Q) (f : ExecutionField) :
  align_execution int_of_str float_of_str mw t (EfValue v) = Ok (mw', t', f) ->
  mw' = mw /\ t' = t /\ f = EfValue v /\ truthy v = false.
Proof.
  unfold align_execution. destruct (truthy v); [discriminate|].
  now intros [= <- <- <-].
Qed.

Lemma init_aligned
  (max_workers timeout : CfgVal) (execution : ExecutionField)
  (rate_limiting : RateLimitingField)
  (error_handling monitoring memory_limit cpu_affinity debug log_level
     : CfgVal) (cfg : PyarallelConfig) :
  PyarallelConfig_init int_of_str float_of_str max_workers timeout execution
    rate_limiting error_handling monitoring memory_limit cpu_affinity debug
    log_level = Ok cfg ->
  aligned cfg /\
  ensure_min_int int_of_str max_workers 1 = Ok (pc_max_workers cfg) /\
  (exists t, ensure_non_negative_float float_of_str timeout = Ok t /\
             (pc_timeout cfg == t)%Q) /\
  (forall m, pc_memory_limit cfg = Some m -> 0 <= m).
Proof.
  unfold PyarallelConfig_init.
  destruct (ensure_min_int int_of_str max_workers 1) as [mw|] eqn:A;
    [|discriminate].
  destruct (ensure_non_negative_float float_of_str timeout) as [t|] eqn:B;
    [|discriminate].
  match goal with
  | |- match ?x with Ok _ => _ | Raise _ => _ end = _ -> _ =>
      destruct x as [ex|] eqn:X; [|discriminate]
  end.
  destruct (align_execution int_of_str float_of_str mw t ex)
    as [[[mw' t'] f]|] eqn:AL; [|discriminate].
  match goal with
  | |- match ?x with Ok _ => _ | Raise _ => _ end = _ -> _ =>
      destruct x as [rl|]; [|discriminate]
  end.
  match goal with
  | |- match ?x with Ok _ => _ | Raise _ => _ end = _ -> _ =>
      destruct x as [ml|] eqn:ML; [|discriminate]
  end.
  intros [= <-]. unfold aligned. cbn.
  assert (MLP : forall m, ml = Some m -> 0 <= m).
  { intros m ->. destruct memory_limit; try discriminate ML;
      match type of ML with
      | context [ensure_min_int ?a ?b ?c] =>
          destruct (ensure_min_int a b c) as [lim|] eqn:Z;
            [|discriminate ML];
          injection ML as ->; now apply ensure_min_int_ge in Z
      end. }
  destruct ex as [c|v].
  - apply align_execution_config in AL
      as [-> [T [c' [-> [M1 [M2 _]]]]]].
    split; [now split|]. split; [reflexivity|]. split; [|exact MLP].
    exists t. now split.
  - apply align_execution_value in AL as [-> [-> [-> TV]]].
    split; [exact TV|]. split; [reflexivity|]. split; [|exact MLP].
    exists t. split; [reflexivity | apply Qeq_refl].
Qed.

(** X14: Every [PyarallelConfig] that is built is aligned: its nested
    [execution.max_workers] and [execution.timeout] equal the top-level
    ones.  The top level wins: the top-level [max_workers] is the
    argument raised to at least 1, whatever the nested configuration
    said, and the top-level [timeout] is the argument; and a memory limit
    is never negative. *)
Theorem pyarallel_config_is_aligned
  (max_workers timeout : CfgVal) (execution : ExecutionField)
  (rate_limiting : RateLimitingField)
  (error_handling monitoring memory_limit cpu_affinity debug log_level
     : CfgVal) (cfg : PyarallelConfig) :
  PyarallelConfig_init int_of_str float_of_str max_workers timeout execution
    rate_limiting error_handling monitoring memory_limit cpu_affinity debug
    log_level = Ok cfg ->
  aligned cfg /\
  ensure_min_int int_of_str max_workers 1 = Ok (pc_max_workers cfg) /\
  (exists t, ensure_non_negative_float float_of_str timeout = Ok t /\
             (pc_timeout cfg == t)%Q) /\
  (forall m, pc_memory_limit cfg = Some m -> 0 <= m).
Proof.
  exact (init_aligned max_workers timeout execution rate_limiting
           error_handling monitoring memory_limit cpu_affinity debug
           log_level cfg).
Qed.

End Alignment.

Section AlignmentExamples.

Import config.

Lemma pyarallel_config_is_aligned_witness :
  exists cfg,
    PyarallelConfig_init (fun _ => None) (fun _ => None)
      (CInt 4) (CFloat 30)
      (EfValue (CDict [("max_workers"%string, CInt 8)])) (RfValue CNone)
      (CDict default_error_handling) (CDict default_monitoring)
      CNone (CBool false) (CBool false) (CStr "INFO") = Ok cfg /\
    aligned cfg /\ pc_max_workers cfg = 4.
Proof.
  eexists. split; [reflexivity|].
  split; [|reflexivity].
  refine (proj1 (pyarallel_config_is_aligned (fun _ => None) (fun _ => None)
                   (CInt 4) (CFloat 30)
                   (EfValue (CDict [("max_workers"%string, CInt 8)]))
                   (RfValue CNone)
                   (CDict default_error_handling) (CDict default_monitoring)
                   CNone (CBool false) (CBool false) (CStr "INFO") _ _)).
  reflexivity.
Defined.

End AlignmentExamples.


Section UpdateConfig.

Import config.

Variable int_of_str : string -> option Z.
Variable float_of_str : string -> option Q.

Lemma dict_get_update (d u : Dict) (k : string) :
  dict_wf u ->
  dict_get k (dict_update d u)
  = match dict_get k u with
    | Some v => Some v
    | None => dict_get k d
    end.
Proof.
  unfold dict_update, dict_wf. revert d.
  induction u as [|[k0 v0] u IH]; intros d W; simpl; [reflexivity|].
  simpl in W. apply NoDup_cons in W as [N W]. rewrite (IH _ W).
  destruct (String.eqb k k0) eqn:E.
  - apply String.eqb_eq in E. subst k0.
    assert (G : dict_get k u = None).
    { apply dict_get_none. intros H. apply N. now apply list_elem_of_In. }
    rewrite G. apply dict_get_set_eq.
  - apply String.eqb_neq in E. now rewrite (dict_get_set_ne _ _ _ _ E).
Qed.

Lemma flatten_execution_wf (updates u : Dict) :
  dict_wf updates ->
  flatten_execution updates = Ok u ->
  dict_wf u /\ dict_get "execution" u = None.
Proof.
  unfold flatten_execution. intros W.
  destruct (dict_get "execution" updates) as [[| | | | |items]|] eqn:G;
    try discriminate; intros [= <-].
  - split; [apply dict_wf_del; now apply dict_wf_update|].
    apply dict_get_del_eq. now apply dict_wf_update.
  - now split.
Qed.

Lemma flatten_execution_get (updates u : Dict) (k : string) :
  dict_wf updates -> nested_wf updates -> k <> "execution"%string ->
  flatten_execution updates = Ok u ->
  dict_get k u = requested k updates.
Proof.
  unfold flatten_execution, requested. intros W NW NE.
  destruct (dict_get "execution" updates) as [[| | | | |items]|] eqn:G;
    try discriminate; intros [= <-]; [|reflexivity].
  rewrite (dict_get_del_ne _ _ _ NE).
  apply dict_get_update. now apply NW.
Qed.

Lemma clamp_max_workers_wf (u u' : Dict) :
  dict_wf u ->
  clamp_max_workers u = Ok u' ->
  dict_wf u' /\
  forall k, k <> "max_workers"%string -> dict_get k u' = dict_get k u.
Proof.
  unfold clamp_max_workers. intros W.
  destruct (dict_get "max_workers" u) as [v|]; [|now intros [= <-]].
  destruct (less_than_one v) as [[|]|]; try discriminate; intros [= <-].
  - split; [now apply dict_wf_set|].
    intros k NE. now apply dict_get_set_ne.
  - now split.
Qed.

Lemma clamp_max_workers_int (u u' : Dict) (n : Z) :
  dict_get "max_workers" u = Some (CInt n) ->
  clamp_max_workers u = Ok u' ->
  dict_get "max_workers" u' = Some (CInt (Z.max n 1)).
Proof.
  unfold clamp_max_workers. intros G. rewrite G. simpl.
  destruct (n <? 1) eqn:L; intros [= <-].
  - rewrite dict_get_set_eq. apply Z.ltb_lt in L. do 2 f_equal. lia.
  - rewrite G. apply Z.ltb_ge in L. do 2 f_equal. lia.
Qed.


Lemma from_dict_is_init (d : Dict) (cfg : PyarallelConfig) :
  PyarallelConfig_from_dict int_of_str float_of_str d = Ok cfg ->
  exists ex rl,
    PyarallelConfig_init int_of_str float_of_str
      (dict_get_default "max_workers" (CInt 4) d)
      (dict_get_default "timeout" (CFloat 30) d)
      ex rl
      (dict_get_default "error_handling" (CDict default_error_handling) d)
      (dict_get_default "monitoring" (CDict default_monitoring) d)
      (dict_get_default "memory_limit" CNone d)
      (dict_get_default "cpu_affinity" (CBool false) d)
      (dict_get_default "debug" (CBool false) d)
      (dict_get_default "log_level" (CStr "INFO") d) = Ok cfg.
Proof.
  unfold PyarallelConfig_from_dict.
  match goal with
  | |- match ?x with Ok _ => _ | Raise _ => _ end = _ -> _ =>
      destruct x as [ex|]; [|discriminate]
  end.
  match goal with
  | |- match ?x with Ok _ => _ | Raise _ => _ end = _ -> _ =>
      destruct x as [rl|]; [|discriminate]
  end.
  intros H. now exists ex, rl.
Qed.

Lemma update_config_merged (updates : Dict) (current cfg : PyarallelConfig) :
  dict_wf updates ->
  update_config int_of_str float_of_str updates current = Ok cfg ->
  exists dump u1 u2,
    PyarallelConfig_model_dump current = Ok dump /\
    flatten_execution updates = Ok u1 /\
    clamp_max_workers u1 = Ok u2 /\
    dict_wf u2 /\ dict_get "execution" u2 = None /\
    PyarallelConfig_from_dict int_of_str float_of_str (deep_merge dump u2)
    = Ok cfg.
Proof.
  unfold update_config. intros W.
  destruct (PyarallelConfig_model_dump current) as [dump|]; [|discriminate].
  destruct (flatten_execution updates) as [u1|] eqn:F; [|discriminate].
  destruct (clamp_max_workers u1) as [u2|] eqn:C; [|discriminate].
  intros H. exists dump, u1, u2.
  destruct (flatten_execution_wf _ _ W F) as [W1 G1].
  destruct (clamp_max_workers_wf _ _ W1 C) as [W2 G2].
  repeat split; try assumption.
  rewrite G2; [exact G1 | discriminate].
Qed.


(** X16: A [max_workers] that [update_config] is given as an integer, at the
    top level or under ["execution"] (which wins), becomes the
    [max_workers] of the new configuration, raised to 1 when it is
    smaller, at the top level and in the nested execution configuration
    alike. *)
Theorem update_config_sets_max_workers
  (updates : Dict) (n : Z) (current cfg : PyarallelConfig) :
  dict_wf updates -> nested_wf updates ->
  requested "max_workers" updates = Some (CInt n) ->
  update_config int_of_str float_of_str updates current = Ok cfg ->
  pc_max_workers cfg = Z.max n 1 /\ aligned cfg.
Proof.
  intros W NW R U.
  destruct (update_config_merged _ _ _ W U)
    as [dump [u1 [u2 [D [F [C [W2 [_ FD]]]]]]]].
  assert (G1 : dict_get "max_workers" u1 = Some (CInt n)).
  { rewrite <- R. apply flatten_execution_get; try assumption.
    discriminate. }
  pose proof (clamp_max_workers_int _ _ _ G1 C) as G2.
  apply from_dict_is_init in FD as [ex [rl I]].
  apply init_aligned in I as [A [M _]]. split; [|exact A].
  unfold dict_get_default in M.
  rewrite (deep_merge_get _ _ "max_workers" W2), G2 in M.
  assert (E : forall o, match o with
                        | Some (CDict b) => CInt (Z.max n 1)
                        | _ => CInt (Z.max n 1)
                        end = CInt (Z.max n 1)).
  { intros [[| | | | |?]|]; reflexivity. }
  rewrite E in M. unfold ensure_min_int in M. simpl in M.
  injection M as <-. lia.
Qed.

End UpdateConfig.


Section ConfigRoundTrip.

Import config.

Variable int_of_str : string -> option Z.
Variable float_of_str : string -> option Q.







End ConfigRoundTrip.


Section UpdateConfigExamples.

Import config.


Lemma update_config_sets_max_workers_witness :
  let e := {| ec_max_workers := 4; ec_timeout := 30;
              ec_default_max_workers := 4;
              ec_default_executor_type := CStr "thread";
              ec_default_batch_size := 10; ec_extra := [] |} in
  let current := {| pc_max_workers := 4; pc_timeout := 30;
                    pc_execution := EfConfig e;
                    pc_rate_limiting := RfValue CNone;
                    pc_error_handling := default_error_handling;
                    pc_monitoring := default_monitoring;
                    pc_memory_limit := None; pc_cpu_affinity := false;
                    pc_debug := false; pc_log_level := CStr "INFO" |} in
  let updates := [("max_workers"%string, CInt 16);
                  ("execution"%string,
                   CDict [("max_workers"%string, CInt 0)])] in
  exists cfg,
    update_config (fun _ => None) (fun _ => None) updates current = Ok cfg /\
    pc_max_workers cfg = 1 /\ aligned cfg.
Proof.
  intros e current updates.
  destruct (update_config (fun _ => None) (fun _ => None) updates current)
    as [cfg|] eqn:U; [|vm_compute in U; discriminate].
  exists cfg. split; [reflexivity|].
  apply (update_config_sets_max_workers (fun _ => None) (fun _ => None)
           updates 0 current cfg).
  - unfold dict_wf. simpl. apply NoDup_cons. split; [|apply NoDup_singleton].
    intros H. apply list_elem_of_In in H. destruct H as [H|[]]. discriminate H.
  - intros items [= <-]. repeat constructor. intros H. inversion H.
  - reflexivity.
  - exact U.
Defined.


End UpdateConfigExamples.
